(** * gps.py: a toll-road simulation

    The development follows [src/gps.py].  Simulated time and the stationary
    counter are integers.  The toll amounts, balances and distances of the
    program are Python floats.  The simulation is modelled over the exact
    rationals [Q] (numeric equality is [Qeq], written [==]), and what is
    proved over them is either an order between amounts or a statement of
    structure (which debits are made, in which order, by which recurrence);
    no equation between rounded sums is claimed of the program from it.
    The ledger on the binary64 floats themselves is in the module
    [Binary64].

    What the program reads from outside (geopy's [geodesic], the wall
    clock, the random generator) is gathered in the record [Ambient].
    Objects that are shared and mutated (environments, vehicles, processes)
    live in stores and are referred to by index.  simpy's event queue and
    shapely's [contains] are modelled after their documented behaviour. *)

From Stdlib Require Import ZArith QArith Lqa Lia List Bool String.
From Stdlib Require Import DecimalString.
From Stdlib Require Import Floats.PrimFloat.
From stdpp Require Import base list.
Import ListNotations.

Local Open Scope Z_scope.
Local Open Scope Q_scope.

(** ** Comparisons on rationals as booleans *)

Definition Qltb (x y : Q) : bool := negb (Qle_bool y x).

(** ** Constants (lines 10-26) *)

Module Constants.

Definition TOLL_RATE_PER_KM : Q := (5 # 100) * 82.
Definition FIXED_TOLL_FEE : Q := 2 * 82.
Definition DYNAMIC_PRICING_RATE : Q := (2 # 100) * 82.
Definition CONGESTION_THRESHOLD : Q := 10.

Inductive TimeSlot : Type := peak | off_peak.

Definition TIME_SLOT_RATE (slot : TimeSlot) : Q :=
  match slot with
  | peak => (3 # 100) * 82
  | off_peak => (1 # 100) * 82
  end.

(** The dict keeps its insertion order when iterated. *)
Definition SPEED_LIMIT_SECTIONS : list (string * Q) :=
  [ ("section_1"%string, 60); ("section_2"%string, 80);
    ("section_3"%string, 100) ].

Definition VENDORS : list string :=
  [ "Vendor_A"%string; "Vendor_B"%string; "Vendor_C"%string ].

End Constants.
Export Constants.

(** ** Pricing (lines 43-48 and 113-119) *)

(** [get_time_slot] reads the wall clock; the hour it reads is an argument
    here. *)
Definition get_time_slot (current_hour : Z) : TimeSlot :=
  if ((7 <=? current_hour)%Z && (current_hour <=? 9)%Z)
     || ((17 <=? current_hour)%Z && (current_hour <=? 19)%Z)
  then peak else off_peak.

Definition calculate_toll (current_hour : Z) (distance : Q) : Q :=
  let toll := distance * TOLL_RATE_PER_KM + FIXED_TOLL_FEE in
  let time_slot := get_time_slot current_hour in
  let toll := toll + distance * TIME_SLOT_RATE time_slot in
  if Qltb CONGESTION_THRESHOLD distance
  then toll + distance * DYNAMIC_PRICING_RATE
  else toll.

(** The base charge of the pricing policy: the first line of
    [calculate_toll]. *)
Definition base_charge (distance : Q) : Q :=
  distance * TOLL_RATE_PER_KM + FIXED_TOLL_FEE.

(** ** UserAccount (lines 97-106) *)

Record UserAccount : Type := mkUserAccount {
  balance : Q;
  vendor : string;
  payments : list Q
}.

Definition UserAccount_init (balance0 : Q) (vendor0 : string) : UserAccount :=
  mkUserAccount balance0 vendor0 [].

(** [deduct_toll] mutates the account and returns the new balance: the
    result is the account after the call and the returned value. *)
Definition deduct_toll (self : UserAccount) (amount : Q) : UserAccount * Q :=
  let self := mkUserAccount (balance self - amount) (vendor self) (payments self) in
  let self := mkUserAccount (balance self) (vendor self) (payments self ++ [amount]) in
  (self, balance self).

(** [n] successive calls, collecting the returned values. *)
Fixpoint deduct_tolls (self : UserAccount) (amounts : list Q)
  : UserAccount * list Q :=
  match amounts with
  | [] => (self, [])
  | a :: rest =>
      let '(self1, r) := deduct_toll self a in
      let '(self2, rs) := deduct_tolls self1 rest in
      (self2, r :: rs)
  end.

(** Python's [sum]: a left fold from 0. *)
Definition py_sum (l : list Q) : Q := fold_left Qplus l 0.

(** The balances a sequence of debits goes through. *)
Fixpoint running_balances (b : Q) (amounts : list Q) : list Q :=
  match amounts with
  | [] => []
  | a :: rest => (b - a) :: running_balances (b - a) rest
  end.

(** ** Geometry *)

Definition Coord : Type := (Q * Q)%type.

(** Python compares the coordinate tuples component by component. *)
Definition coord_eqb (a b : Coord) : bool :=
  Qeq_bool (fst a) (fst b) && Qeq_bool (snd a) (snd b).

(** A toll zone is a shapely [Polygon] without holes (what
    [Point(..).buffer(radius)] builds): the vertices of its ring, each
    joined to the next and the last to the first. *)
Definition Polygon : Type := list Coord.

Definition edges (zone : Polygon) : list (Coord * Coord) :=
  match zone with
  | [] => []
  | v :: rest => combine zone (rest ++ [v])
  end.

Definition cross (o a b : Coord) : Q :=
  (fst a - fst o) * (snd b - snd o) - (snd a - snd o) * (fst b - fst o).

Definition Qbetween (lo x hi : Q) : bool :=
  (Qle_bool lo x && Qle_bool x hi) || (Qle_bool hi x && Qle_bool x lo).

(** [p] lies on the closed segment from [a] to [b]. *)
Definition on_segment (p : Coord) (e : Coord * Coord) : bool :=
  let '(a, b) := e in
  Qeq_bool (cross a b p) 0
  && Qbetween (fst a) (fst p) (fst b)
  && Qbetween (snd a) (snd p) (snd b).

(** The boundary of the polygon: the union of its edges. *)
Definition on_boundary (zone : Polygon) (p : Coord) : bool :=
  existsb (on_segment p) (edges zone).

(** The edge crosses the horizontal ray from [p] towards larger x. *)
Definition ray_crosses (p : Coord) (e : Coord * Coord) : bool :=
  let '(a, b) := e in
  if Bool.eqb (Qltb (snd p) (snd a)) (Qltb (snd p) (snd b)) then false
  else Qltb (fst p)
         (fst a + (snd p - snd a) * (fst b - fst a) / (snd b - snd a)).

(** Even-odd rule: the number of edges the ray crosses is odd. *)
Definition inside_ring (zone : Polygon) (p : Coord) : bool :=
  fold_left (fun odd e => xorb odd (ray_crosses p e)) (edges zone) false.

(** shapely's [zone.contains(Point(p))]: the point lies in the interior of
    the polygon.  A point of the boundary is not contained (shapely's
    boundary-inclusive predicate is [covers]). *)
Definition contains (zone : Polygon) (p : Coord) : bool :=
  inside_ring zone p && negb (on_boundary zone p).

(** ** Vehicle (lines 51-94) *)

(** Objects are referred to by their index in the store that holds them. *)
Abbreviation EnvRef := nat (only parsing).
Abbreviation VehicleRef := nat (only parsing).
Abbreviation ProcRef := nat (only parsing).

(** Each vehicle of [main] is given a fresh [UserAccount] and the common
    list of zones, which nothing mutates: both are held by value. *)
Record Vehicle : Type := mkVehicle {
  env : EnvRef;
  vehicle_id : string;
  start : Coord;
  end_ : Coord;
  position : Coord;
  account : UserAccount;
  toll_zones : list Polygon;
  route : list Coord;
  process : ProcRef;
  stationary_time : Z
}.

Definition set_position (self : Vehicle) (p : Coord) : Vehicle :=
  mkVehicle (env self) (vehicle_id self) (start self) (end_ self) p
    (account self) (toll_zones self) (route self) (process self)
    (stationary_time self).

Definition set_account (self : Vehicle) (a : UserAccount) : Vehicle :=
  mkVehicle (env self) (vehicle_id self) (start self) (end_ self)
    (position self) a (toll_zones self) (route self) (process self)
    (stationary_time self).

Definition set_stationary_time (self : Vehicle) (n : Z) : Vehicle :=
  mkVehicle (env self) (vehicle_id self) (start self) (end_ self)
    (position self) (account self) (toll_zones self) (route self)
    (process self) n.

(** What a call prints. *)
Inductive Output : Type :=
| EmergencyContingency (vehicle : string)
| CrossedTollZone (vehicle : string) (toll remaining : Q)
| ExceededSpeedLimit (vehicle : string) (section : string) (limit : Q).

(** What a call does to the vehicle it runs on, in order. *)
Inductive Effect : Type :=
| SetPosition (p : Coord)
| Debit (amount : Q)
| SetStationaryTime (n : Z)
| Print (o : Output).

Definition is_update (e : Effect) : bool :=
  match e with
  | SetPosition _ | Debit _ => true
  | SetStationaryTime _ | Print _ => false
  end.

Definition is_debit (e : Effect) : bool :=
  match e with Debit _ => true | _ => false end.

(** How the generator of [run] returned: by the [break] of line 68, or at the
    end of the route. *)
Inductive Exit : Type := by_break | by_exhaustion.

(** The control state of one [run] generator: created and not yet started,
    suspended at the [yield] of line 73 or of line 75 in the iteration over
    [route[i]], or returned. *)
Inductive GenState : Type :=
| Created
| AtYield1 (i : nat)
| AtYield2 (i : nat)
| Finished (how : Exit).

(** The spec's names for the two terminal states. *)
Definition HALTED_CONTINGENCY : GenState := Finished by_break.
Definition COMPLETED : GenState := Finished by_exhaustion.

Definition is_finished (g : GenState) : bool :=
  match g with Finished _ => true | _ => false end.

(** ** The simpy environment *)

(** What processing an event calls: the [_resume] of the process waiting
    for it, the end of [env.run(until=..)], or nothing (the event of a
    process that returned, which nobody waits for). *)
Inductive Callback : Type :=
| Resume (p : ProcRef)
| StopSimulation
| NoCallback.

Definition URGENT : Z := 0%Z.
Definition NORMAL : Z := 1%Z.

(** An entry of the environment's heap: [(time, priority, eid, event)]. *)
Record Event : Type := mkEvent {
  ev_time : Z;
  ev_priority : Z;
  ev_id : nat;
  ev_callback : Callback
}.

Record Environment : Type := mkEnvironment {
  now : Z;
  eid : nat;
  queue : list Event
}.

Definition Environment_init : Environment := mkEnvironment 0%Z 0 [].

(** [env.schedule(event, priority, delay)]. *)
Definition schedule (e : Environment) (cb : Callback) (priority delay : Z)
  : Environment :=
  mkEnvironment (now e) (S (eid e))
    (queue e ++ [mkEvent (now e + delay)%Z priority (eid e) cb]).

(** The order of the heap's tuples. *)
Definition event_ltb (a b : Event) : bool :=
  (ev_time a <? ev_time b)%Z
  || ((ev_time a =? ev_time b)%Z
      && ((ev_priority a <? ev_priority b)%Z
          || ((ev_priority a =? ev_priority b)%Z
              && (ev_id a <? ev_id b)%nat))).

(** [heappop]: the least entry leaves the queue. *)
Fixpoint heap_min (m : Event) (q : list Event) : Event :=
  match q with
  | [] => m
  | x :: rest => heap_min (if event_ltb x m then x else m) rest
  end.

Fixpoint heap_remove (i : nat) (q : list Event) : list Event :=
  match q with
  | [] => []
  | x :: rest => if (ev_id x =? i)%nat then rest else x :: heap_remove i rest
  end.

Definition heappop (q : list Event) : option (Event * list Event) :=
  match q with
  | [] => None
  | x :: rest =>
      let m := heap_min x rest in Some (m, heap_remove (ev_id m) q)
  end.

(** ** The world: the objects of a run *)

(** A simpy process: its environment, and the generator of [run] it drives,
    which is bound to one vehicle object. *)
Record Process : Type := mkProcess {
  p_env : EnvRef;
  p_vehicle : VehicleRef;
  p_gen : GenState
}.

Inductive Action : Type :=
| ProcessScheduled
| Does (e : Effect).

(** The record of a run: which process did what to which vehicle, and at
    which time of which environment. *)
Record LogEntry : Type := mkLog {
  l_env : EnvRef;
  l_time : Z;
  l_proc : ProcRef;
  l_vehicle : VehicleRef;
  l_what : Action
}.

(** The stores of environments, vehicles and processes, the number of
    readings of the wall clock and of the random generator made so far, and
    the record of the run. *)
Record World : Type := mkWorld {
  envs : list Environment;
  vehicles : list Vehicle;
  procs : list Process;
  clock_reads : nat;
  rng_draws : nat;
  log : list LogEntry
}.

Definition World_init : World := mkWorld [] [] [] 0 0 [].

(** [env.now].  A reference of a Python program always points to an
    object: the default is for indices that no object has. *)
Definition now_of (w : World) (e : EnvRef) : Z :=
  match envs w !! e with
  | Some x => now x
  | None => 0%Z
  end.

(** [simpy.Environment()]. *)
Definition new_environment (w : World) : World * EnvRef :=
  (mkWorld (envs w ++ [Environment_init]) (vehicles w) (procs w)
     (clock_reads w) (rng_draws w) (log w),
   length (envs w)).

(** [env.schedule(..)] on the environment object [e]. *)
Definition env_schedule (w : World) (e : EnvRef) (cb : Callback)
  (priority delay : Z) : World :=
  mkWorld (alter (fun x => schedule x cb priority delay) e (envs w))
    (vehicles w) (procs w) (clock_reads w) (rng_draws w) (log w).

(** [env.process(vehicle.run())]: a new generator over the vehicle, wrapped
    in a new process whose start is scheduled at the current time. *)
Definition env_process (w : World) (e : EnvRef) (v : VehicleRef)
  : World * ProcRef :=
  let pid := length (procs w) in
  let w1 :=
    mkWorld (envs w) (vehicles w) (procs w ++ [mkProcess e v Created])
      (clock_reads w) (rng_draws w)
      (log w ++ [mkLog e (now_of w e) pid v ProcessScheduled]) in
  (env_schedule w1 e (Resume pid) URGENT 0, pid).

(** A call returns a value or raises. *)
Inductive Outcome (A : Type) : Type :=
| Returns (a : A)
| Raises (exception : string).
Arguments Returns {A} a.
Arguments Raises {A} exception.

(** [Vehicle(env, vehicle_id, start, end, account, toll_zones, route)].
    The generator body starts only when the environment runs, after
    [stationary_time] has been set. *)
Definition Vehicle_init (w : World) (env0 : EnvRef) (vehicle_id0 : string)
  (start0 end0 : Coord) (account0 : UserAccount) (toll_zones0 : list Polygon)
  (route0 : list Coord) : Outcome (World * VehicleRef) :=
  let self := length (vehicles w) in
  let obj :=
    mkVehicle env0 vehicle_id0 start0 end0 start0 account0 toll_zones0 route0
      (length (procs w)) 0%Z in
  let w1 :=
    mkWorld (envs w) (vehicles w ++ [obj]) (procs w)
      (clock_reads w) (rng_draws w) (log w) in
  Returns (fst (env_process w1 env0 self), self).

(** [setup_environment(env, vehicles)] (lines 122-124). *)
Definition setup_environment (w : World) (e : EnvRef)
  (vs : list VehicleRef) : World :=
  fold_left (fun w v => fst (env_process w e v)) vs w.

(** [query_vehicle_count(env, vehicles)] (lines 159-160). *)
Definition query_vehicle_count (w : World) (e : EnvRef)
  (vs : list VehicleRef) : Z :=
  fold_left
    (fun acc v =>
       match vehicles w !! v with
       | Some vehicle =>
           if (now_of w (env vehicle) <=? now_of w e)%Z
           then (acc + 1)%Z else acc
       | None => acc
       end)
    vs 0%Z.

(** ** What the program reads from outside *)

Record Ambient : Type := mkAmbient {
  (** geopy's [geodesic(a, b).kilometers] *)
  geodesic_km : Coord -> Coord -> Q;
  (** the hour of the k-th reading of [datetime.now()] *)
  hour_of_read : nat -> Z;
  (** the k-th value of [random.random()] *)
  random_of_draw : nat -> Q
}.

(** What resuming a generator gives: the vehicle and the generator
    afterwards, the readings consumed, what was done, and the delay of the
    timeout it yielded ([None] when it returned). *)
Record Resumed : Type := mkResumed {
  r_vehicle : Vehicle;
  r_gen : GenState;
  r_clock : nat;
  r_rng : nat;
  r_effects : list Effect;
  r_yield : option Z
}.

Definition and_before (pre : list Effect) (r : Resumed) : Resumed :=
  mkResumed (r_vehicle r) (r_gen r) (r_clock r) (r_rng r)
    (pre ++ r_effects r) (r_yield r).

Inductive Stepped : Type :=
| Continue (w : World)
| Stop (w : World)
| EmptySchedule.

Section Simulation.

Variable ext : Ambient.

(** [calculate_distance] (lines 109-110). *)
Definition calculate_distance (a b : Coord) : Q := geodesic_km ext a b.

(** [check_toll_zone] (lines 83-89), over the zones still to visit. *)
Fixpoint check_toll_zone_from (zones : list Polygon) (self : Vehicle)
  (clock : nat) : Vehicle * nat * list Effect :=
  match zones with
  | [] => (self, clock, [])
  | toll_zone :: rest =>
      if contains toll_zone (position self) then
        let distance := calculate_distance (start self) (position self) in
        let toll := calculate_toll (hour_of_read ext clock) distance in
        let self1 := set_account self (fst (deduct_toll (account self) toll)) in
        let out :=
          CrossedTollZone (vehicle_id self1) toll (balance (account self1)) in
        let '(self2, clock2, effs) :=
          check_toll_zone_from rest self1 (S clock) in
        (self2, clock2, Debit toll :: Print out :: effs)
      else check_toll_zone_from rest self clock
  end.

Definition check_toll_zone (self : Vehicle) (clock : nat)
  : Vehicle * nat * list Effect :=
  check_toll_zone_from (toll_zones self) self clock.

(** [check_speed_limit] (lines 91-94): it only prints. *)
Definition check_speed_limit (self : Vehicle) : list Effect :=
  flat_map
    (fun '(section, limit) =>
       if Qltb limit (calculate_distance (start self) (position self))
       then [Print (ExceededSpeedLimit (vehicle_id self) section limit)]
       else [])
    SPEED_LIMIT_SECTIONS.

(** The head of the loop of [run] for the iteration over [route[i]], up to
    the [yield] of line 73 (lines 65-73). *)
Definition loop_head (self : Vehicle) (i : nat) (clock rng : nat)
  : Resumed :=
  match route self !! i with
  | None => mkResumed self (Finished by_exhaustion) clock rng [] None
  | Some p =>
      if (5 <=? stationary_time self)%Z then
        mkResumed self (Finished by_break) clock rng
          [Print (EmergencyContingency (vehicle_id self))] None
      else
        let self1 := set_position self p in
        let '(self2, clock2, effs) := check_toll_zone self1 clock in
        mkResumed self2 (AtYield1 i) clock2 rng
          (SetPosition p :: effs ++ check_speed_limit self2) (Some 1%Z)
  end.

(** The end of the loop body (lines 78-81).  It runs inside the loop, where
    the route has an element, so [route[-1]] exists. *)
Definition stationary_check (self : Vehicle) : Vehicle :=
  if coord_eqb (position self) (List.last (route self) (position self))
  then set_stationary_time self (stationary_time self + 1)%Z
  else set_stationary_time self 0%Z.

(** One [send] to the generator of [run]: from where it is suspended to
    its next [yield] or to its return.  A returned generator is never
    resumed. *)
Definition resume_run (self : Vehicle) (g : GenState) (clock rng : nat)
  : Resumed :=
  match g with
  | Created => loop_head self 0 clock rng
  | AtYield1 i =>
      if Qltb (random_of_draw ext rng) (1 # 10)
      then mkResumed self (AtYield2 i) clock (S rng) [] (Some 1%Z)
      else
        let self1 := stationary_check self in
        and_before [SetStationaryTime (stationary_time self1)]
          (loop_head self1 (S i) clock (S rng))
  | AtYield2 i =>
      let self1 := stationary_check self in
      and_before [SetStationaryTime (stationary_time self1)]
        (loop_head self1 (S i) clock rng)
  | Finished how => mkResumed self g clock rng [] None
  end.

(** [Process._resume]: run the generator of process [pid], store what it
    did, and wait for the timeout it yielded, which is an event of the
    vehicle's environment; when the generator returns, the process event
    is scheduled in the process's environment. *)
Definition process_resume (w : World) (e : EnvRef) (pid : ProcRef) : World :=
  match procs w !! pid with
  | None => w
  | Some pr =>
      match vehicles w !! p_vehicle pr with
      | None => w
      | Some self =>
          if is_finished (p_gen pr) then w else
          let r := resume_run self (p_gen pr) (clock_reads w) (rng_draws w) in
          let w1 :=
            mkWorld (envs w)
              (<[p_vehicle pr := r_vehicle r]> (vehicles w))
              (<[pid := mkProcess (p_env pr) (p_vehicle pr) (r_gen r)]> (procs w))
              (r_clock r) (r_rng r)
              (log w ++
                 map (fun eff =>
                        mkLog e (now_of w e) pid (p_vehicle pr) (Does eff))
                   (r_effects r)) in
          match r_yield r with
          | Some delay =>
              env_schedule w1 (env (r_vehicle r)) (Resume pid) NORMAL delay
          | None => env_schedule w1 (p_env pr) NoCallback NORMAL 0
          end
      end
  end.

(** [env.step()]: pop the next event, move the clock to it and call its
    callbacks. *)
Definition step (w : World) (e : EnvRef) : Stepped :=
  match envs w !! e with
  | None => EmptySchedule
  | Some x =>
      match heappop (queue x) with
      | None => EmptySchedule
      | Some (ev, rest) =>
          let w1 :=
            mkWorld (<[e := mkEnvironment (ev_time ev) (eid x) rest]> (envs w))
              (vehicles w) (procs w) (clock_reads w) (rng_draws w) (log w) in
          match ev_callback ev with
          | Resume pid => Continue (process_resume w1 e pid)
          | StopSimulation => Stop w1
          | NoCallback => Continue w1
          end
      end
  end.

(** The loop of [env.run]: it ends at the stop event or on an empty
    schedule; [None] when [fuel] steps were not enough. *)
Fixpoint run_loop (fuel : nat) (w : World) (e : EnvRef) : option World :=
  match fuel with
  | O => None
  | S fuel' =>
      match step w e with
      | Continue w1 => run_loop fuel' w1 e
      | Stop w1 => Some w1
      | EmptySchedule => Some w
      end
  end.

(** [env.run(until=t)]. *)
Definition env_run (fuel : nat) (w : World) (e : EnvRef) (until : Z)
  : option (Outcome World) :=
  if (until <=? now_of w e)%Z then Some (Raises "ValueError")
  else
    match
      run_loop fuel
        (env_schedule w e StopSimulation URGENT (until - now_of w e)%Z) e
    with
    | Some w1 => Some (Returns w1)
    | None => None
    end.

(** [k] steps of the environment, stopping early like [run_loop]. *)
Fixpoint steps (k : nat) (w : World) (e : EnvRef) : World :=
  match k with
  | O => w
  | S k' =>
      match step w e with
      | Continue w1 => steps k' w1 e
      | Stop w1 => w1
      | EmptySchedule => w
      end
  end.

End Simulation.

(** ** main (lines 163-182) *)

Definition vehicle_name (i : nat) : string :=
  "Vehicle_" ++ NilZero.string_of_uint (Nat.to_uint i).

(** The loop of lines 168-172 over the routes and vendors that were drawn;
    [route[0]] raises on an empty list. *)
Fixpoint create_vehicles (w : World) (e : EnvRef) (toll_zones0 : list Polygon)
  (i : nat) (drawn : list (list Coord * string))
  : Outcome (World * list VehicleRef) :=
  match drawn with
  | [] => Returns (w, [])
  | (route0, vendor0) :: rest =>
      let account0 := UserAccount_init 100 vendor0 in
      match route0 with
      | [] => Raises "IndexError"
      | first :: _ =>
          match
            Vehicle_init w e (vehicle_name i) first (List.last route0 first)
              account0 toll_zones0 route0
          with
          | Raises exn => Raises exn
          | Returns (w1, v) =>
              match create_vehicles w1 e toll_zones0 (S i) rest with
              | Raises exn => Raises exn
              | Returns (w2, vs) => Returns (w2, v :: vs)
              end
          end
      end
  end.

(** [main] up to the end of [setup_environment], on the zones, routes and
    vendors that the random generator gave. *)
Definition main_setup (toll_zones0 : list Polygon)
  (drawn : list (list Coord * string))
  : Outcome (World * EnvRef * list VehicleRef) :=
  let '(w, e) := new_environment World_init in
  match create_vehicles w e toll_zones0 0 drawn with
  | Raises exn => Raises exn
  | Returns (w1, vs) => Returns (setup_environment w1 e vs, e, vs)
  end.

(** [main] up to the end of [env.run(until=100)] and the final query. *)
Definition main (ext : Ambient) (fuel : nat) (toll_zones0 : list Polygon)
  (drawn : list (list Coord * string)) : option (Outcome (World * Z)) :=
  match main_setup toll_zones0 drawn with
  | Raises exn => Some (Raises exn)
  | Returns (w, e, vs) =>
      match env_run ext fuel w e 100 with
      | None => None
      | Some (Raises exn) => Some (Raises exn)
      | Some (Returns w1) => Some (Returns (w1, query_vehicle_count w1 e vs))
      end
  end.

(** ** Notions used by the properties *)

(** The tolls of [k] successive debits of one zone check: the distance is
    the same, the wall clock is read once for each. *)
Definition tolls_of_check (ext : Ambient) (clock k : nat) (d : Q) : list Q :=
  map (fun c => calculate_toll (hour_of_read ext c) d) (seq clock k).

Definition zones_containing (zones : list Polygon) (p : Coord) : list Polygon :=
  List.filter (fun zone => contains zone p) zones.

(** The world after one step of the environment [e], when it has an event. *)
Definition step_to (ext : Ambient) (w : World) (e : EnvRef) : option World :=
  match step ext w e with
  | Continue w1 | Stop w1 => Some w1
  | EmptySchedule => None
  end.

(** [later w w']: the world [w'] is reached from [w] by steps of its
    environments, in any order. *)
Inductive later (ext : Ambient) : World -> World -> Prop :=
| later_now (w : World) : later ext w w
| later_step (w w1 w2 : World) (e : EnvRef) :
    step_to ext w e = Some w1 -> later ext w1 w2 -> later ext w w2.

(** Between [w] and [w'] the process [pid] is left as it was and nothing in
    the record of the run is its doing. *)
Definition silent (pid : ProcRef) (w w' : World) : Prop :=
  procs w' !! pid = procs w !! pid
  /\ exists new, log w' = log w ++ new
                 /\ Forall (fun l => l_proc l <> pid) new.

(** A process of the vehicle [v] was scheduled in the environment [e] at or
    before the time [t] of that environment. *)
Definition scheduled_by (w : World) (e : EnvRef) (t : Z) (v : VehicleRef)
  : bool :=
  existsb
    (fun l =>
       match l_what l with
       | ProcessScheduled =>
           (l_env l =? e)%nat && (l_vehicle l =? v)%nat && (l_time l <=? t)%Z
       | Does _ => false
       end)
    (log w).

(** The test of [query_vehicle_count]: the clock of the vehicle's own
    environment is not ahead of the clock of [e]. *)
Definition clock_not_ahead (w : World) (e : EnvRef) (v : VehicleRef) : bool :=
  match vehicles w !! v with
  | Some vehicle => (now_of w (env vehicle) <=? now_of w e)%Z
  | None => false
  end.

(** The processes registered for the vehicle [v]. *)
Definition processes_of (w : World) (v : VehicleRef) : list Process :=
  List.filter (fun pr => (p_vehicle pr =? v)%nat) (procs w).

(** What the record of the run says was done to the vehicle [v] at time [t]
    of the environment [e], with the process that did it. *)
Definition done_at (w : World) (e : EnvRef) (t : Z) (v : VehicleRef)
  : list (ProcRef * Effect) :=
  flat_map
    (fun l =>
       match l_what l with
       | Does eff =>
           if (l_env l =? e)%nat && (l_time l =? t)%Z && (l_vehicle l =? v)%nat
           then [(l_proc l, eff)] else []
       | ProcessScheduled => []
       end)
    (log w).

(** The moves and debits among them. *)
Definition updates_at (w : World) (e : EnvRef) (t : Z) (v : VehicleRef)
  : list (ProcRef * Effect) :=
  List.filter (fun x => is_update x.2) (done_at w e t v).

(** The worlds that runs go through: no event of a queue lies in the past
    of its environment, and the process of every vehicle was scheduled in
    the vehicle's environment, at or before its present time. *)
Definition well_formed (w : World) : Prop :=
  (forall (e : EnvRef) (x : Environment),
      envs w !! e = Some x ->
      Forall (fun ev => (now x <= ev_time ev)%Z) (queue x))
  /\ (forall (v : VehicleRef) (self : Vehicle),
        vehicles w !! v = Some self ->
        scheduled_by w (env self) (now_of w (env self)) v = true).

(** ** A scenario: one zone, a vehicle standing inside it *)

Module Scenario.

(** A square zone around [(13.5, 80.5)]. *)
Definition zone : Polygon := [ (13, 80); (14, 80); (14, 81); (13, 81) ].
Definition centre : Coord := (27 # 2, 161 # 2).
Definition edge_point : Coord := (13, 161 # 2).
Definition outside_point : Coord := (12, 161 # 2).

(** The geodesic distance of a point to itself is 0; no other distance is
    asked for below.  It is noon, and there is never congestion. *)
Definition calm : Ambient :=
  mkAmbient (fun _ _ => 0) (fun _ => 12%Z) (fun _ => 1 # 2).

Definition account_100 : UserAccount := UserAccount_init 100 "Vendor_A".

(** A vehicle at [centre], about to visit it again. *)
Definition parked (stationary : Z) (zones : list Polygon) : Vehicle :=
  mkVehicle 0%nat "Vehicle_0" centre centre centre account_100 zones
    [centre; centre] 0%nat stationary.

(** [main] with this zone and one vehicle whose route is
    [[centre; centre]]. *)
Definition fleet : list (list Coord * string) :=
  [ ([centre; centre], "Vendor_A"%string) ].

Definition after_setup : World :=
  match main_setup [zone] fleet with
  | Returns (w, _, _) => w
  | Raises _ => World_init
  end.

End Scenario.

(** ** Notions used by the properties of whole runs *)

(** What no step of a run changes in a vehicle. *)
Definition same_identity (a b : Vehicle) : Prop :=
  env b = env a /\ vehicle_id b = vehicle_id a /\ start b = start a
  /\ end_ b = end_ a /\ toll_zones b = toll_zones a /\ route b = route a
  /\ process b = process a /\ vendor (account b) = vendor (account a).

(** No waypoint of the route is contained in a zone. *)
Definition route_outside_zones (self : Vehicle) : bool :=
  forallb
    (fun p => forallb (fun zone => negb (contains zone p)) (toll_zones self))
    (route self).

(** The ledger of [b] is the ledger of [a] after the debits [more]. *)
Definition ledger_after (a b : Vehicle) (more : list Q) : Prop :=
  payments (account b) = payments (account a) ++ more
  /\ balance (account b) == balance (account a) - py_sum more.

(** The advisory of [check_speed_limit] for one section. *)
Definition speed_advisory (self : Vehicle) (entry : string * Q) : Effect :=
  Print (ExceededSpeedLimit (vehicle_id self) entry.1 entry.2).

(** How a vehicle [b] later in a run relates to the same vehicle [a]
    earlier: the same identity; a position that is the old one or a waypoint
    of the route; a stationary counter still non-negative; a ledger extended
    by debits, none if the route avoids the zones, each at least the fixed
    fee if distances are non-negative. *)
Definition run_relation (ext : Ambient) (a b : Vehicle) : Prop :=
  same_identity a b
  /\ (position b = position a \/ In (position b) (route a))
  /\ ((0 <= stationary_time a)%Z -> (0 <= stationary_time b)%Z)
  /\ exists more : list Q,
       ledger_after a b more
       /\ (route_outside_zones a = true -> more = [])
       /\ ((forall x y, 0 <= geodesic_km ext x y) ->
           Forall (fun amount => FIXED_TOLL_FEE <= amount) more).


(** ** The report (lines 139-156) *)

(** The four columns that [generate_report] fills and writes out. *)
Record Report : Type := mkReport {
  col_vehicle_id : list string;
  col_total_distance : list Q;
  col_total_toll : list Q;
  col_payment_vendor : list string
}.

Definition generate_report (ext : Ambient) (w : World)
  (vs : list VehicleRef) : Report :=
  fold_left
    (fun report v =>
       match vehicles w !! v with
       | Some vehicle =>
           let total_distance :=
             calculate_distance ext (start vehicle) (end_ vehicle) in
           let total_toll := py_sum (payments (account vehicle)) in
           mkReport
             (col_vehicle_id report ++ [vehicle_id vehicle])
             (col_total_distance report ++ [total_distance])
             (col_total_toll report ++ [total_toll])
             (col_payment_vendor report ++ [vendor (account vehicle)])
       | None => report
       end)
    vs (mkReport [] [] [] []).

(** ** A second scenario: a vehicle that stays outside the zone *)

Module Detour.

Definition fleet : list (list Coord * string) :=
  [ ([Scenario.outside_point; Scenario.outside_point], "Vendor_B"%string) ].

Definition after_setup : World :=
  match main_setup [Scenario.zone] fleet with
  | Returns (w, _, _) => w
  | Raises _ => World_init
  end.

Definition vehicle_0 : Vehicle :=
  mkVehicle 0%nat "Vehicle_0" Scenario.outside_point Scenario.outside_point
    Scenario.outside_point (UserAccount_init 100 "Vendor_B")
    [Scenario.zone] [Scenario.outside_point; Scenario.outside_point]
    0%nat 0%Z.

End Detour.

(** ** A bound on what is left of a run *)

(** How many more times the generator of a route of [n] waypoints can be
    resumed, at most. *)
Definition resumes_left (n : nat) (g : GenState) : nat :=
  match g with
  | Created => 2 * n + 3
  | AtYield1 i => 2 * (n - i) + 2
  | AtYield2 i => 2 * (n - i) + 1
  | Finished _ => 0
  end.

Definition route_length (vs : list Vehicle) (v : VehicleRef) : nat :=
  match vs !! v with
  | Some a => length (route a)
  | None => 0
  end.

(** The events waiting in the queues, plus the resumes the processes can
    still ask for. *)
Definition work_left (w : World) : nat :=
  list_sum (map (fun x => length (queue x)) (envs w))
  + list_sum
      (map (fun pr =>
              resumes_left (route_length (vehicles w) (p_vehicle pr)) (p_gen pr))
         (procs w)).





(** What a zone check does for the tolls [amounts], the balance going
    through [balances]: each debit is followed by its message. *)
Definition toll_effects (id : string) (amounts balances : list Q)
  : list Effect :=
  flat_map
    (fun tb => [Debit tb.1; Print (CrossedTollZone id tb.1 tb.2)])
    (combine amounts balances).

(** ** The ledger on binary64 floats *)

(** The balance and the amounts of the program are Python floats, and
    [deduct_toll] rounds at each call.  This is the account of lines 97-106
    on the floats themselves; an integer balance as the 100 of [main] is
    the float of the same value. *)
Module Binary64.

Record UserAccount : Type := mkUserAccount {
  balance : float;
  vendor : string;
  payments : list float
}.

Definition UserAccount_init (balance0 : float) (vendor0 : string)
  : UserAccount :=
  mkUserAccount balance0 vendor0 [].

Definition deduct_toll (self : UserAccount) (amount : float)
  : UserAccount * float :=
  let self :=
    mkUserAccount (PrimFloat.sub (balance self) amount) (vendor self)
      (payments self) in
  let self :=
    mkUserAccount (balance self) (vendor self) (payments self ++ [amount]) in
  (self, balance self).

Fixpoint deduct_tolls (self : UserAccount) (amounts : list float)
  : UserAccount * list float :=
  match amounts with
  | [] => (self, [])
  | a :: rest =>
      let '(self1, r) := deduct_toll self a in
      let '(self2, rs) := deduct_tolls self1 rest in
      (self2, r :: rs)
  end.

(** Python's [sum] of floats: a left fold from 0. *)
Definition py_sum (l : list float) : float :=
  fold_left PrimFloat.add l 0%float.

(** The balances a sequence of debits goes through. *)
Fixpoint running_balances (b : float) (amounts : list float) : list float :=
  match amounts with
  | [] => []
  | a :: rest =>
      PrimFloat.sub b a :: running_balances (PrimFloat.sub b a) rest
  end.


End Binary64.

(** ** The ledger as a recurrence, the debits of a tick, the boundary *)

(** The balance that successive subtraction of [amounts] from [b] gives:
    the recurrence that [deduct_toll] runs. *)
Definition balance_after (b : Q) (amounts : list Q) : Q :=
  fold_left Qminus amounts b.

(** The ledger of [b] is the ledger of [a] replayed through the debits
    [more]. *)
Definition ledger_replay (a b : Vehicle) : Prop :=
  exists more : list Q,
    payments (account b) = payments (account a) ++ more
    /\ balance (account b) = balance_after (balance (account a)) more.

(** The debits that the record of the run has for the vehicle [v] at time
    [t] of the environment [e]. *)
Definition debits_at (w : World) (e : EnvRef) (t : Z) (v : VehicleRef)
  : list (ProcRef * Effect) :=
  List.filter (fun x => is_debit x.2) (done_at w e t v).

(** The vehicle and the index of the waypoint with which a resume of the
    generator starts its next tick, that is, reaches the head of the loop:
    at once for a new generator, after the stationary check of lines 78-81
    for a suspended one, and not at all when the congestion draw of line 74
    suspends it again. *)
Definition tick_start (ext : Ambient) (self : Vehicle) (g : GenState)
  (rng : nat) : option (Vehicle * nat) :=
  match g with
  | Created => Some (self, 0%nat)
  | AtYield1 i =>
      if Qltb (random_of_draw ext rng) (1 # 10) then None
      else Some (stationary_check self, S i)
  | AtYield2 i => Some (stationary_check self, S i)
  | Finished _ => None
  end.

(** [p] lies on the boundary of the zone: on one of its edges, the end
    points included. *)
Definition on_edge (zone : Polygon) (p : Coord) : Prop :=
  exists (a b : Coord) (t : Q),
    In (a, b) (edges zone)
    /\ 0 <= t /\ t <= 1
    /\ fst p == fst a + t * (fst b - fst a)
    /\ snd p == snd a + t * (snd b - snd a).

(** ** A third scenario: a vehicle that stays at its final waypoint *)

Module Stalled.

(** Seven times the same waypoint, inside the zone. *)
Definition fleet : list (list Coord * string) :=
  [ (repeat Scenario.centre 7, "Vendor_A"%string) ].

Definition after_setup : World :=
  match main_setup [Scenario.zone] fleet with
  | Returns (w, _, _) => w
  | Raises _ => World_init
  end.

(** After six steps the two processes of the vehicle have brought the
    counter to 4, and the first one is about to be resumed. *)
Definition world : World := steps Scenario.calm 6 after_setup 0.

Definition process_0 : Process :=
  match procs world !! 0%nat with
  | Some pr => pr
  | None => mkProcess 0 0 Created
  end.

Definition vehicle_0 : Vehicle :=
  match vehicles world !! 0%nat with
  | Some a => a
  | None => Scenario.parked 0 [Scenario.zone]
  end.

End Stalled.

(** * Properties *)

(** ** Rational comparisons *)

Lemma Qltb_lt (x y : Q) : Qltb x y = true <-> x < y.
Proof.
  unfold Qltb. rewrite negb_true_iff.
  split; intro H.
  - apply Qnot_le_lt. intro Hle. apply Qle_bool_iff in Hle. congruence.
  - destruct (Qle_bool y x) eqn:E; [|reflexivity].
    apply Qle_bool_iff in E. exfalso. apply (Qlt_not_le _ _ H E).
Qed.

Lemma Qltb_ge (x y : Q) : Qltb x y = false <-> y <= x.
Proof.
  unfold Qltb. rewrite negb_false_iff. apply Qle_bool_iff.
Qed.

(** ** Pricing *)

Lemma TIME_SLOT_RATE_pos (slot : TimeSlot) : 0 < TIME_SLOT_RATE slot.
Proof. destruct slot; reflexivity. Qed.

(** The toll as one formula: the base charge, the time-slot surcharge and,
    above the threshold, the congestion surcharge. *)
Lemma calculate_toll_eq (hour : Z) (d : Q) :
  calculate_toll hour d =
  if Qltb CONGESTION_THRESHOLD d
  then base_charge d + d * TIME_SLOT_RATE (get_time_slot hour)
       + d * DYNAMIC_PRICING_RATE
  else base_charge d + d * TIME_SLOT_RATE (get_time_slot hour).
Proof. reflexivity. Qed.

(** C4: for a distance [d >= 0] and any hour of the day, the toll is at
    least the base charge [d * TOLL_RATE_PER_KM + FIXED_TOLL_FEE], which is
    itself non-negative. *)
Theorem calculate_toll_ge_base_charge (hour : Z) (d : Q) :
  0 <= d ->
  d * TOLL_RATE_PER_KM + FIXED_TOLL_FEE <= calculate_toll hour d
  /\ 0 <= d * TOLL_RATE_PER_KM + FIXED_TOLL_FEE.
Proof.
  intros Hd. rewrite calculate_toll_eq. unfold base_charge.
  pose proof (TIME_SLOT_RATE_pos (get_time_slot hour)) as Hs.
  set (s := TIME_SLOT_RATE (get_time_slot hour)) in *.
  assert (Hds : 0 <= d * s) by (apply Qmult_le_0_compat; lra).
  unfold TOLL_RATE_PER_KM, FIXED_TOLL_FEE, DYNAMIC_PRICING_RATE.
  destruct (Qltb CONGESTION_THRESHOLD d); split; lra.
Qed.

Lemma calculate_toll_ge_base_charge_witness :
  0 <= 12
  /\ 12 * TOLL_RATE_PER_KM + FIXED_TOLL_FEE <= calculate_toll 8 12
  /\ 0 <= 12 * TOLL_RATE_PER_KM + FIXED_TOLL_FEE.
Proof.
  split; [discriminate | apply (calculate_toll_ge_base_charge 8 12); discriminate].
Defined.

(** C5: for any hour of the day, the toll does not decrease when the
    distance grows, also across the congestion threshold. *)
Theorem calculate_toll_monotone (hour : Z) (d1 d2 : Q) :
  0 <= d1 -> d1 <= d2 -> calculate_toll hour d1 <= calculate_toll hour d2.
Proof.
  intros H0 H12. rewrite !calculate_toll_eq. unfold base_charge.
  pose proof (TIME_SLOT_RATE_pos (get_time_slot hour)) as Hs.
  set (s := TIME_SLOT_RATE (get_time_slot hour)) in *.
  assert (Hds : d1 * s <= d2 * s) by (apply Qmult_le_compat_r; lra).
  unfold TOLL_RATE_PER_KM, FIXED_TOLL_FEE, DYNAMIC_PRICING_RATE.
  destruct (Qltb CONGESTION_THRESHOLD d1) eqn:E1;
    destruct (Qltb CONGESTION_THRESHOLD d2) eqn:E2;
    try apply Qltb_lt in E1; try apply Qltb_ge in E1;
    try apply Qltb_lt in E2; try apply Qltb_ge in E2;
    unfold CONGESTION_THRESHOLD in *; lra.
Qed.

Lemma calculate_toll_monotone_witness :
  0 <= 10 /\ 10 <= 11 /\ calculate_toll 18 10 <= calculate_toll 18 11.
Proof.
  split; [discriminate|]. split; [discriminate|].
  apply (calculate_toll_monotone 18 10 11); discriminate.
Defined.

(** ** The account ledger *)

Lemma py_sum_from (l : list Q) (z : Q) : fold_left Qplus l z == z + py_sum l.
Proof.
  unfold py_sum. revert z.
  induction l as [|a l IH]; intros z; simpl.
  - lra.
  - rewrite (IH (z + a)), (IH (0 + a)). lra.
Qed.

Lemma py_sum_cons (a : Q) (l : list Q) : py_sum (a :: l) == a + py_sum l.
Proof.
  unfold py_sum at 1. simpl. rewrite py_sum_from. lra.
Qed.

(** A call returns the balance it leaves. *)
Lemma deduct_toll_returns_balance (self : UserAccount) (amount : Q) :
  snd (deduct_toll self amount) = balance (fst (deduct_toll self amount)).
Proof. reflexivity. Qed.

Lemma deduct_tolls_cons (self : UserAccount) (a : Q) (rest : list Q) :
  deduct_tolls self (a :: rest) =
  (fst (deduct_tolls (fst (deduct_toll self a)) rest),
   snd (deduct_toll self a) :: snd (deduct_tolls (fst (deduct_toll self a)) rest)).
Proof.
  cbn [deduct_tolls].
  destruct (deduct_toll self a) as [self1 r]. cbn [fst snd].
  destruct (deduct_tolls self1 rest) as [self2 rs]. reflexivity.
Qed.

(** The debits of a sequence of calls, from any account. *)
Lemma deduct_tolls_from (amounts : list Q) (self : UserAccount) :
  balance (fst (deduct_tolls self amounts)) == balance self - py_sum amounts
  /\ payments (fst (deduct_tolls self amounts)) = payments self ++ amounts
  /\ vendor (fst (deduct_tolls self amounts)) = vendor self
  /\ snd (deduct_tolls self amounts) = running_balances (balance self) amounts.
Proof.
  revert self.
  induction amounts as [|a rest IH]; intros self.
  - simpl. rewrite app_nil_r. repeat split; try reflexivity.
    unfold py_sum; simpl; lra.
  - rewrite deduct_tolls_cons. cbn [fst snd].
    destruct (IH (fst (deduct_toll self a))) as (Hb & Hp & Hv & Hr).
    cbn [deduct_toll fst snd balance payments vendor] in *.
    repeat split.
    + pose proof (py_sum_cons a rest) as Hs. lra.
    + rewrite Hp, <- app_assoc. reflexivity.
    + assumption.
    + rewrite Hr. reflexivity.
Qed.

Lemma deduct_tolls_balance_after (amounts : list Q) :
  forall self : UserAccount,
    balance (fst (deduct_tolls self amounts))
    = balance_after (balance self) amounts.
Proof.
  induction amounts as [|a rest IH]; intros self; [reflexivity|].
  rewrite deduct_tolls_cons. cbn [fst]. rewrite IH. reflexivity.
Qed.

(** *** On binary64 floats *)





(** C10: [deduct_toll] leaves the vendor as it was and changes the payments
    only by appending the amount: the payments recorded before are still
    there, in the same order, followed by the one new entry. *)
Theorem deduct_toll_frame (self : UserAccount) (amount : Q) :
  let self' := fst (deduct_toll self amount) in
  vendor self' = vendor self
  /\ payments self' = payments self ++ [amount]
  /\ firstn (length (payments self)) (payments self') = payments self
  /\ length (payments self') = S (length (payments self)).
Proof.
  cbn. repeat split.
  - rewrite firstn_app, Nat.sub_diag, firstn_all. cbn. apply app_nil_r.
  - rewrite length_app. cbn. lia.
Qed.

(** ** The zone check *)

Lemma set_account_same (self : Vehicle) : set_account self (account self) = self.
Proof. destruct self; reflexivity. Qed.

Lemma check_toll_zone_from_spec (ext : Ambient) (zones : list Polygon) :
  forall (self : Vehicle) (clock : nat),
    let r := check_toll_zone_from ext zones self clock in
    let amounts :=
      tolls_of_check ext clock
        (length (zones_containing zones (position self)))
        (calculate_distance ext (start self) (position self)) in
    r.1.1 = set_account self (fst (deduct_tolls (account self) amounts))
    /\ r.1.2 = (clock + length (zones_containing zones (position self)))%nat
    /\ List.filter is_debit r.2 = map Debit amounts.
Proof.
  induction zones as [|z rest IH]; intros self clock; cbv zeta.
  - cbn. rewrite set_account_same. repeat split. lia.
  - cbn [check_toll_zone_from zones_containing List.filter].
    destruct (contains z (position self)) eqn:Hz.
    + set (d := calculate_distance ext (start self) (position self)).
      set (toll := calculate_toll (hour_of_read ext clock) d).
      set (self1 := set_account self (fst (deduct_toll (account self) toll))).
      specialize (IH self1 (S clock)). cbv zeta in IH.
      change (position self1) with (position self) in IH.
      change (start self1) with (start self) in IH.
      fold (zones_containing rest (position self)). fold d in IH.
      destruct (check_toll_zone_from ext rest self1 (S clock))
        as [[self2 clock2] effs].
      cbn [fst snd length] in *. destruct IH as (Hv & Hc & He).
      unfold tolls_of_check in *. cbn [seq map]. fold toll.
      rewrite deduct_tolls_cons. cbn [fst].
      repeat split.
      * rewrite Hv. reflexivity.
      * lia.
      * cbn [List.filter is_debit]. rewrite He. reflexivity.
    + apply IH.
Qed.

(** A zone check leaves everything but the account as it was. *)
Lemma check_toll_zone_frame (ext : Ambient) (self : Vehicle) (clock : nat) :
  let self' := (check_toll_zone ext self clock).1.1 in
  position self' = position self /\ start self' = start self
  /\ stationary_time self' = stationary_time self
  /\ route self' = route self /\ env self' = env self
  /\ toll_zones self' = toll_zones self /\ vehicle_id self' = vehicle_id self.
Proof.
  cbv zeta. unfold check_toll_zone.
  destruct (check_toll_zone_from_spec ext (toll_zones self) self clock)
    as (-> & _ & _).
  repeat split.
Qed.

(** ** Runs of the scheduler *)

Lemma silent_refl (pid : ProcRef) (w : World) : silent pid w w.
Proof. split; [reflexivity|]. exists []. rewrite app_nil_r. auto. Qed.

Lemma silent_trans (pid : ProcRef) (w1 w2 w3 : World) :
  silent pid w1 w2 -> silent pid w2 w3 -> silent pid w1 w3.
Proof.
  intros (Hp1 & n1 & Hl1 & Hf1) (Hp2 & n2 & Hl2 & Hf2). split.
  - congruence.
  - exists (n1 ++ n2). rewrite Hl2, Hl1, <- app_assoc. split; [reflexivity|].
    apply Forall_app; auto.
Qed.

Lemma env_schedule_silent (pid : ProcRef) (w : World) (e : EnvRef)
  (cb : Callback) (prio delay : Z) :
  silent pid w (env_schedule w e cb prio delay).
Proof. split; [reflexivity|]. exists []. cbn. rewrite app_nil_r. auto. Qed.

Lemma process_resume_silent (ext : Ambient) (w : World) (e : EnvRef)
  (pid pid' : ProcRef) (pr : Process) :
  procs w !! pid = Some pr -> is_finished (p_gen pr) = true ->
  silent pid w (process_resume ext w e pid').
Proof.
  intros Hpr Hfin. unfold process_resume.
  destruct (procs w !! pid') as [pr'|] eqn:Hpr'; [|apply silent_refl].
  destruct (vehicles w !! p_vehicle pr') as [self|]; [|apply silent_refl].
  destruct (is_finished (p_gen pr')) eqn:Hfin'; [apply silent_refl|].
  assert (Hne : pid' <> pid).
  { intros ->. rewrite Hpr in Hpr'. injection Hpr' as ->. congruence. }
  set (r := resume_run ext self (p_gen pr') (clock_reads w) (rng_draws w)).
  match goal with
  | |- silent pid w (match _ with Some d => env_schedule ?w1 _ _ _ _
                                 | None => _ end) =>
      assert (Hs : silent pid w w1)
  end.
  { split; cbn.
    - apply list_lookup_insert_ne. assumption.
    - eexists. split; [reflexivity|].
      apply Forall_map. apply Forall_forall. intros eff _. cbn. assumption. }
  destruct (r_yield r);
    (eapply silent_trans; [exact Hs | apply env_schedule_silent]).
Qed.

Lemma step_silent (ext : Ambient) (w w1 : World) (e : EnvRef)
  (pid : ProcRef) (pr : Process) :
  procs w !! pid = Some pr -> is_finished (p_gen pr) = true ->
  step_to ext w e = Some w1 -> silent pid w w1.
Proof.
  intros Hpr Hfin. unfold step_to, step.
  destruct (envs w !! e) as [x|]; [|discriminate].
  destruct (heappop (queue x)) as [[ev rest]|]; [|discriminate].
  set (w0 := mkWorld _ _ _ _ _ _).
  assert (H0 : silent pid w w0).
  { split; [reflexivity|]. exists []. cbn. rewrite app_nil_r. auto. }
  destruct (ev_callback ev); intros [= <-]; try assumption.
  eapply silent_trans; [exact H0|].
  eapply process_resume_silent; eassumption.
Qed.

(** Once a generator has returned, its process stays as it is and does
    nothing more, whatever the environments do afterwards. *)
Lemma finished_process_silent (ext : Ambient) (w w' : World) :
  later ext w w' ->
  forall (pid : ProcRef) (pr : Process),
    procs w !! pid = Some pr -> is_finished (p_gen pr) = true ->
    silent pid w w'.
Proof.
  induction 1 as [w | w w1 w2 e Hstep Hlater IH]; intros pid pr Hpr Hfin.
  - apply silent_refl.
  - pose proof (step_silent ext w w1 e pid pr Hpr Hfin Hstep) as H1.
    eapply silent_trans; [exact H1|].
    apply (IH pid pr); [|assumption].
    destruct H1 as [-> _]. assumption.
Qed.

Lemma loop_head_halts (ext : Ambient) (self : Vehicle) (i : nat) (p : Coord)
  (clock rng : nat) :
  route self !! i = Some p ->
  (5 <= stationary_time self)%Z ->
  loop_head ext self i clock rng
  = mkResumed self HALTED_CONTINGENCY clock rng
      [Print (EmergencyContingency (vehicle_id self))] None.
Proof.
  intros Hp Hst. unfold loop_head. rewrite Hp.
  destruct (5 <=? stationary_time self)%Z eqn:E; [reflexivity | lia].
Qed.

Lemma stationary_check_frame (self : Vehicle) :
  position (stationary_check self) = position self
  /\ account (stationary_check self) = account self.
Proof.
  unfold stationary_check. destruct (coord_eqb _ _); split; reflexivity.
Qed.

(** A resume that starts a tick with the counter at 5 or more and a
    waypoint left breaks out of the loop. *)
Lemma resume_run_halts (ext : Ambient) (self self1 : Vehicle) (g : GenState)
  (clock rng j : nat) (p : Coord) :
  tick_start ext self g rng = Some (self1, j) ->
  route self1 !! j = Some p ->
  (5 <= stationary_time self1)%Z ->
  let r := resume_run ext self g clock rng in
  is_finished g = false
  /\ r_gen r = HALTED_CONTINGENCY
  /\ r_vehicle r = self1
  /\ r_yield r = None
  /\ Forall (fun eff => is_update eff = false) (r_effects r)
  /\ position self1 = position self
  /\ account self1 = account self.
Proof.
  intros Ht Hp Hst. cbv zeta.
  destruct (stationary_check_frame self) as [Hpos Hacc].
  destruct g as [|i|i|how]; cbn [tick_start] in Ht; cbn [resume_run].
  - injection Ht as <- <-. rewrite (loop_head_halts ext self 0 p) by assumption.
    cbn. repeat split. repeat constructor.
  - destruct (Qltb _ _); [discriminate|]. injection Ht as <- <-.
    rewrite (loop_head_halts ext _ (S i) p) by assumption.
    cbn. repeat split; try assumption. repeat constructor.
  - injection Ht as <- <-.
    rewrite (loop_head_halts ext _ (S i) p) by assumption.
    cbn. repeat split; try assumption. repeat constructor.
  - discriminate.
Qed.

(** C6: when a process is resumed and starts a tick with
    [stationary_time >= 5] and a waypoint still to visit, the resume puts
    the process in HALTED_CONTINGENCY; it leaves the position and the
    account of the vehicle as they were, and what it adds to the record of
    the run is no move and no debit.  From then on, whatever the
    environments do, the process stays halted and nothing in the record is
    its doing: it never again sets the position or debits the ledger. *)
Theorem stationary_halt (ext : Ambient) (w : World) (e : EnvRef)
  (pid : ProcRef) (pr : Process) (self self1 : Vehicle) (j : nat) (p : Coord) :
  procs w !! pid = Some pr ->
  vehicles w !! p_vehicle pr = Some self ->
  tick_start ext self (p_gen pr) (rng_draws w) = Some (self1, j) ->
  route self1 !! j = Some p ->
  (5 <= stationary_time self1)%Z ->
  let w1 := process_resume ext w e pid in
  let halted := mkProcess (p_env pr) (p_vehicle pr) HALTED_CONTINGENCY in
  procs w1 !! pid = Some halted
  /\ vehicles w1 !! p_vehicle pr = Some self1
  /\ position self1 = position self
  /\ account self1 = account self
  /\ (exists new,
        log w1 = log w ++ new
        /\ Forall (fun l => exists eff,
                             l_what l = Does eff /\ is_update eff = false)
             new)
  /\ forall w' : World,
       later ext w1 w' ->
       procs w' !! pid = Some halted
       /\ exists new, log w' = log w1 ++ new
                      /\ Forall (fun l => l_proc l <> pid) new.
Proof.
  intros Hpr Hself Ht Hp Hst. cbv zeta.
  destruct (resume_run_halts ext self self1 (p_gen pr) (clock_reads w)
              (rng_draws w) j p Ht Hp Hst)
    as (Hfin & Hgen & Hveh & Hyield & Heffs & Hpos & Hacc).
  cbv zeta in *.
  assert (Hw1 : procs (process_resume ext w e pid) !! pid
                = Some (mkProcess (p_env pr) (p_vehicle pr) HALTED_CONTINGENCY)
                /\ vehicles (process_resume ext w e pid) !! p_vehicle pr
                   = Some self1
                /\ exists new,
                     log (process_resume ext w e pid) = log w ++ new
                     /\ Forall (fun l => exists eff,
                                    l_what l = Does eff
                                    /\ is_update eff = false) new).
  { unfold process_resume. rewrite Hpr, Hself, Hfin, Hyield.
    cbn [env_schedule procs vehicles log]. rewrite Hgen, Hveh.
    split; [apply list_lookup_insert_eq; eapply lookup_lt_Some; eassumption|].
    split; [apply list_lookup_insert_eq; eapply lookup_lt_Some; eassumption|].
    eexists. split; [reflexivity|].
    apply Forall_map. eapply Forall_impl; [exact Heffs|].
    intros eff Heff. exists eff. split; [reflexivity | exact Heff]. }
  destruct Hw1 as (Hp1 & Hv1 & Hlog1).
  split; [exact Hp1|]. split; [exact Hv1|].
  split; [exact Hpos|]. split; [exact Hacc|]. split; [exact Hlog1|].
  intros w' Hlater.
  destruct (finished_process_silent ext _ w' Hlater pid _ Hp1 eq_refl)
    as [Hsame Hlog].
  split; [rewrite Hsame; exact Hp1 | exact Hlog].
Qed.

Lemma stationary_halt_witness :
  procs (process_resume Scenario.calm Stalled.world 0 0) !! 0%nat
  = Some (mkProcess 0 0 HALTED_CONTINGENCY)
  /\ stationary_time (stationary_check Stalled.vehicle_0) = 5%Z.
Proof.
  split; [|vm_compute; reflexivity].
  destruct (stationary_halt Scenario.calm Stalled.world 0%nat 0%nat
              Stalled.process_0 Stalled.vehicle_0
              (stationary_check Stalled.vehicle_0) 3 Scenario.centre)
    as (H & _).
  - vm_compute. reflexivity.
  - vm_compute. reflexivity.
  - vm_compute. reflexivity.
  - vm_compute. reflexivity.
  - vm_compute. discriminate.
  - exact H.
Defined.

(** ** The membership test *)

(** C7 fails: a point on an edge of the zone is on its boundary and is not
    contained. *)
Lemma boundary_point_not_contained :
  on_boundary Scenario.zone Scenario.edge_point = true
  /\ contains Scenario.zone Scenario.edge_point = false.
Proof. split; reflexivity. Qed.

(** The test does tell the inside from the outside. *)
Lemma contains_centre : contains Scenario.zone Scenario.centre = true.
Proof. reflexivity. Qed.

Lemma contains_outside_point :
  contains Scenario.zone Scenario.outside_point = false.
Proof. reflexivity. Qed.

Lemma on_boundary_not_contained (zone : Polygon) (p : Coord) :
  on_boundary zone p = true -> contains zone p = false.
Proof.
  intros H. unfold contains. rewrite H. apply andb_false_r.
Qed.

Lemma Qbetween_segment (lo hi t x : Q) :
  0 <= t -> t <= 1 -> x == lo + t * (hi - lo) -> Qbetween lo x hi = true.
Proof.
  intros H0 H1 Hx. unfold Qbetween.
  destruct (Qlt_le_dec hi lo) as [Hlt|Hle].
  - apply orb_true_iff. right. apply andb_true_iff.
    assert (Hu : 0 <= t * (lo - hi)) by (apply Qmult_le_0_compat; lra).
    assert (Hv : 0 <= (1 - t) * (lo - hi)) by (apply Qmult_le_0_compat; lra).
    split; apply Qle_bool_iff; lra.
  - apply orb_true_iff. left. apply andb_true_iff.
    assert (Hu : 0 <= t * (hi - lo)) by (apply Qmult_le_0_compat; lra).
    assert (Hv : 0 <= (1 - t) * (hi - lo)) by (apply Qmult_le_0_compat; lra).
    split; apply Qle_bool_iff; lra.
Qed.

(** The points of the edges are the points that [on_boundary] finds. *)
Lemma on_edge_on_boundary (zone : Polygon) (p : Coord) :
  on_edge zone p -> on_boundary zone p = true.
Proof.
  intros (a & b & t & Hin & H0 & H1 & Hx & Hy).
  unfold on_boundary. apply existsb_exists. exists (a, b).
  split; [exact Hin|]. unfold on_segment.
  apply andb_true_iff. split; [apply andb_true_iff; split|].
  - apply Qeq_bool_iff. unfold cross. rewrite Hx, Hy. ring.
  - apply (Qbetween_segment _ _ t); assumption.
  - apply (Qbetween_segment _ _ t); assumption.
Qed.

(** C7, amended: for every toll zone and every point [p] of its boundary,
    that is of one of the edges of the polygon, end points included,
    [contains(zone, p)] is false: boundary points are outside the zone. *)
Theorem contains_excludes_boundary (zone : Polygon) (p : Coord) :
  on_edge zone p -> contains zone p = false.
Proof.
  intros H. apply on_boundary_not_contained, on_edge_on_boundary. exact H.
Qed.

Lemma contains_excludes_boundary_witness :
  on_edge Scenario.zone Scenario.edge_point
  /\ contains Scenario.zone Scenario.edge_point = false.
Proof.
  assert (H : on_edge Scenario.zone Scenario.edge_point).
  { exists (13, 81), (13, 80), (1 # 2).
    split; [right; right; right; left; reflexivity|].
    repeat split; try discriminate; reflexivity. }
  split; [exact H|].
  apply (contains_excludes_boundary Scenario.zone Scenario.edge_point H).
Defined.

(** ** Construction of a vehicle *)

Lemma env_schedule_vehicles (w : World) (e : EnvRef) (cb : Callback)
  (prio delay : Z) :
  vehicles (env_schedule w e cb prio delay) = vehicles w.
Proof. reflexivity. Qed.

Lemma env_process_vehicles (w : World) (e : EnvRef) (v : VehicleRef) :
  vehicles (env_process w e v).1 = vehicles w.
Proof. reflexivity. Qed.

Lemma env_process_procs (w : World) (e : EnvRef) (v : VehicleRef) :
  procs (env_process w e v).1 = procs w ++ [mkProcess e v Created].
Proof. reflexivity. Qed.

(** C8 fails: with an empty route the constructor returns. *)
Lemma empty_route_is_accepted :
  Vehicle_init World_init 0%nat "Vehicle_0" Scenario.centre Scenario.centre
    Scenario.account_100 [Scenario.zone] []
  <> Raises "InvalidRouteError".
Proof. discriminate. Qed.

(** C8, amended: the constructor checks nothing.  With an empty route it
    returns the vehicle, its process registered; when the process is first
    resumed the generator returns at once, the vehicle not moved and its
    ledger not debited. *)
Theorem Vehicle_init_empty_route (w : World) (env0 : EnvRef) (id : string)
  (start0 end0 : Coord) (account0 : UserAccount) (zones : list Polygon) :
  exists (w' : World) (v : VehicleRef) (self : Vehicle),
    Vehicle_init w env0 id start0 end0 account0 zones [] = Returns (w', v)
    /\ vehicles w' !! v = Some self
    /\ route self = [] /\ position self = start0 /\ account self = account0
    /\ procs w' !! process self = Some (mkProcess env0 v Created)
    /\ forall (ext : Ambient) (clock rng : nat),
         resume_run ext self Created clock rng
         = mkResumed self COMPLETED clock rng [] None.
Proof.
  eexists _, _, _. split; [reflexivity|].
  cbn [fst]. rewrite env_process_vehicles, env_process_procs. cbn [vehicles procs].
  split; [apply list_lookup_middle; reflexivity|].
  cbn [route position account process].
  repeat split.
  apply list_lookup_middle; reflexivity.
Qed.

(** ** The heap of events *)

Lemma event_ltb_time (a b : Event) :
  event_ltb a b = true -> (ev_time a <= ev_time b)%Z.
Proof. unfold event_ltb. lia. Qed.

Lemma event_ltb_false_time (a b : Event) :
  event_ltb a b = false -> (ev_time b <= ev_time a)%Z.
Proof. unfold event_ltb. lia. Qed.

Lemma heap_min_time (q : list Event) :
  forall m : Event,
    (ev_time (heap_min m q) <= ev_time m)%Z
    /\ Forall (fun x => (ev_time (heap_min m q) <= ev_time x)%Z) q.
Proof.
  induction q as [|x rest IH]; intros m; cbn [heap_min].
  - split; [lia | constructor].
  - destruct (event_ltb x m) eqn:E.
    + apply event_ltb_time in E. destruct (IH x) as [H1 H2].
      split; [lia|]. constructor; assumption.
    + apply event_ltb_false_time in E. destruct (IH m) as [H1 H2].
      split; [assumption|]. constructor; [lia | assumption].
Qed.

Lemma heap_min_in (q : list Event) :
  forall m : Event, In (heap_min m q) (m :: q).
Proof.
  induction q as [|x rest IH]; intros m; cbn [heap_min].
  - left; reflexivity.
  - destruct (event_ltb x m).
    + destruct (IH x) as [H|H]; [right; left; exact H | right; right; exact H].
    + destruct (IH m) as [H|H]; [left; exact H | right; right; exact H].
Qed.

Lemma heap_remove_Forall (P : Event -> Prop) (i : nat) (q : list Event) :
  Forall P q -> Forall P (heap_remove i q).
Proof.
  induction 1 as [|x rest Hx Hrest IH]; cbn [heap_remove].
  - constructor.
  - destruct (ev_id x =? i)%nat; [assumption | constructor; assumption].
Qed.

(** The event popped is one of the queue, no later than any other, and the
    rest of the queue is a part of it. *)
Lemma heappop_spec (q rest : list Event) (ev : Event) :
  heappop q = Some (ev, rest) ->
  In ev q
  /\ Forall (fun x => (ev_time ev <= ev_time x)%Z) rest
  /\ forall P : Event -> Prop, Forall P q -> Forall P rest.
Proof.
  destruct q as [|x q']; [discriminate|].
  unfold heappop. intros H. injection H as Hev Hrest. subst ev rest.
  destruct (heap_min_time q' x) as [H1 H2].
  split; [apply heap_min_in|]. split.
  - apply (heap_remove_Forall _ _ (x :: q')). constructor; assumption.
  - intros P. apply (heap_remove_Forall _ _ (x :: q')).
Qed.

(** ** Well-formed worlds *)

Lemma scheduled_by_later (w w' : World) (e : EnvRef) (t t' : Z)
  (v : VehicleRef) (new : list LogEntry) :
  log w' = log w ++ new -> (t <= t')%Z ->
  scheduled_by w e t v = true -> scheduled_by w' e t' v = true.
Proof.
  intros Hlog Ht. unfold scheduled_by. rewrite Hlog, existsb_app.
  intros H. apply orb_true_iff. left.
  apply existsb_exists in H. destruct H as (l & Hin & Hl).
  apply existsb_exists. exists l. split; [assumption|].
  destruct (l_what l); [|discriminate].
  apply andb_true_iff in Hl. destruct Hl as [Hv Hle].
  apply andb_true_iff. split; [assumption|]. lia.
Qed.

Lemma now_of_env_schedule (w : World) (e e' : EnvRef) (cb : Callback)
  (prio delay : Z) :
  now_of (env_schedule w e cb prio delay) e' = now_of w e'.
Proof.
  unfold now_of, env_schedule. cbn [envs].
  rewrite list_lookup_alter. case_decide; [subst|reflexivity].
  destruct (envs w !! e'); reflexivity.
Qed.

Lemma well_formed_init : well_formed World_init.
Proof. split; intros ? ? H; discriminate H. Qed.

Lemma well_formed_env_schedule (w : World) (e : EnvRef) (cb : Callback)
  (prio delay : Z) :
  (0 <= delay)%Z -> well_formed w ->
  well_formed (env_schedule w e cb prio delay).
Proof.
  intros Hd [Hq Hv]. split.
  - intros e' x'. cbn [env_schedule envs]. rewrite list_lookup_alter.
    case_decide; [subst|apply Hq].
    destruct (envs w !! e') as [x|] eqn:Hx; [|discriminate].
    intros [= <-]. cbn [schedule now queue].
    apply Forall_app. split; [apply (Hq e'); assumption|].
    constructor; [cbn; lia | constructor].
  - intros v self Hself. rewrite now_of_env_schedule.
    apply (scheduled_by_later w _ (env self) (now_of w (env self)) _ v []);
      [cbn; rewrite app_nil_r; reflexivity | lia | apply Hv; assumption].
Qed.

Lemma well_formed_env_process (w : World) (e : EnvRef) (v : VehicleRef) :
  well_formed w -> well_formed (env_process w e v).1.
Proof.
  intros [Hq Hv]. cbn [env_process fst].
  apply well_formed_env_schedule; [lia|]. split.
  - exact Hq.
  - intros v' self Hself. cbn [vehicles] in Hself.
    eapply scheduled_by_later; [reflexivity | | apply (Hv v' self Hself)].
    unfold now_of. cbn [envs]. lia.
Qed.

Lemma well_formed_new_environment (w : World) :
  well_formed w -> well_formed (new_environment w).1.
Proof.
  intros [Hq Hv]. cbn [new_environment fst].
  assert (Hnow : forall e', now_of (mkWorld (envs w ++ [Environment_init])
                       (vehicles w) (procs w) (clock_reads w) (rng_draws w)
                       (log w)) e' = now_of w e').
  { intros e'. unfold now_of. cbn [envs].
    destruct (envs w !! e') as [x|] eqn:Hx.
    - rewrite lookup_app_l by (eapply lookup_lt_Some; eassumption).
      rewrite Hx. reflexivity.
    - apply lookup_ge_None_1 in Hx. rewrite lookup_app_r by assumption.
      destruct (e' - length (envs w))%nat as [|[|n]]; reflexivity. }
  split.
  - intros e' x'. cbn [envs]. intros H.
    apply lookup_app_Some in H. destruct H as [H|[_ H]]; [eapply Hq; eassumption|].
    destruct (e' - length (envs w))%nat as [|n]; [|destruct n; discriminate].
    injection H as <-. constructor.
  - intros v self Hself. rewrite Hnow.
    eapply (scheduled_by_later w _ _ _ _ v []);
      [cbn; rewrite app_nil_r; reflexivity | | apply (Hv v self Hself)]. lia.
Qed.

Lemma well_formed_Vehicle_init (w w' : World) (env0 : EnvRef) (id : string)
  (start0 end0 : Coord) (account0 : UserAccount) (zones : list Polygon)
  (route0 : list Coord) (v : VehicleRef) :
  Vehicle_init w env0 id start0 end0 account0 zones route0 = Returns (w', v) ->
  well_formed w -> well_formed w'.
Proof.
  unfold Vehicle_init. intros [= <- <-] [Hq Hv].
  cbn [env_process fst vehicles procs envs clock_reads rng_draws log].
  apply well_formed_env_schedule; [lia|]. split.
  - exact Hq.
  - intros v' self. cbn [vehicles]. intros Hself.
    apply lookup_app_Some in Hself. destruct Hself as [Hself|[Hge Hself]].
    + eapply scheduled_by_later; [reflexivity | | apply (Hv v' self Hself)].
      unfold now_of. cbn [envs]. lia.
    + destruct (v' - length (vehicles w))%nat as [|n] eqn:En;
        [|destruct n; discriminate].
      injection Hself as <-. assert (v' = length (vehicles w)) as -> by lia.
      unfold scheduled_by. cbn [log env]. rewrite existsb_app.
      apply orb_true_iff. right. cbn [existsb l_what l_env l_vehicle l_time].
      rewrite !Nat.eqb_refl. unfold now_of. cbn [envs].
      rewrite Z.leb_refl. reflexivity.
Qed.

Lemma well_formed_setup_environment (vs : list VehicleRef) :
  forall (w : World) (e : EnvRef),
    well_formed w -> well_formed (setup_environment w e vs).
Proof.
  unfold setup_environment.
  induction vs as [|v rest IH]; intros w e Hw; cbn [fold_left].
  - assumption.
  - apply IH. apply well_formed_env_process. assumption.
Qed.

Lemma loop_head_env (ext : Ambient) (self : Vehicle) (i clock rng : nat) :
  let r := loop_head ext self i clock rng in
  env (r_vehicle r) = env self
  /\ forall d : Z, r_yield r = Some d -> (0 <= d)%Z.
Proof.
  cbv zeta. unfold loop_head.
  destruct (route self !! i) as [p|]; [|split; [reflexivity | discriminate]].
  destruct (5 <=? stationary_time self)%Z; [split; [reflexivity | discriminate]|].
  pose proof (check_toll_zone_frame ext (set_position self p) clock) as F.
  cbv zeta in F.
  destruct (check_toll_zone ext (set_position self p) clock)
    as [[self2 clock2] effs].
  cbn [fst snd r_vehicle r_yield] in *.
  destruct F as (_ & _ & _ & _ & He & _).
  split; [exact He|]. intros d [= <-]. lia.
Qed.

Lemma stationary_check_env (self : Vehicle) :
  env (stationary_check self) = env self.
Proof.
  unfold stationary_check.
  destruct (coord_eqb _ _); reflexivity.
Qed.

Lemma resume_run_env (ext : Ambient) (self : Vehicle) (g : GenState)
  (clock rng : nat) :
  let r := resume_run ext self g clock rng in
  env (r_vehicle r) = env self
  /\ forall d : Z, r_yield r = Some d -> (0 <= d)%Z.
Proof.
  cbv zeta. destruct g as [|i|i|how]; cbn [resume_run].
  - apply loop_head_env.
  - destruct (Qltb _ _).
    + split; [reflexivity|]. intros d [= <-]. lia.
    + cbn [and_before r_vehicle r_yield].
      destruct (loop_head_env ext (stationary_check self) (S i) clock (S rng))
        as [He Hy].
      rewrite He, stationary_check_env. split; [reflexivity | exact Hy].
  - cbn [and_before r_vehicle r_yield].
    destruct (loop_head_env ext (stationary_check self) (S i) clock rng)
      as [He Hy].
    rewrite He, stationary_check_env. split; [reflexivity | exact Hy].
  - split; [reflexivity | discriminate].
Qed.

Lemma well_formed_process_resume (ext : Ambient) (w : World) (e : EnvRef)
  (pid : ProcRef) :
  well_formed w -> well_formed (process_resume ext w e pid).
Proof.
  intros Hw. unfold process_resume.
  destruct (procs w !! pid) as [pr|]; [|assumption].
  destruct (vehicles w !! p_vehicle pr) as [self|] eqn:Hself; [|assumption].
  destruct (is_finished (p_gen pr)); [assumption|].
  destruct (resume_run_env ext self (p_gen pr) (clock_reads w) (rng_draws w))
    as [He Hy]. cbv zeta in He, Hy.
  set (r := resume_run ext self (p_gen pr) (clock_reads w) (rng_draws w)) in *.
  match goal with
  | |- well_formed (match _ with Some d => env_schedule ?w1 _ _ _ _
                                | None => _ end) =>
      assert (H1 : well_formed w1)
  end.
  { destruct Hw as [Hq Hv]. split; [exact Hq|].
    intros v' self'. cbn [vehicles]. intros H.
    apply list_lookup_insert_Some in H.
    destruct H as [(<- & <- & _)|[_ H]].
    - rewrite He.
      eapply scheduled_by_later; [reflexivity | | apply (Hv _ _ Hself)].
      unfold now_of. cbn [envs]. lia.
    - eapply scheduled_by_later; [reflexivity | | apply (Hv _ _ H)].
      unfold now_of. cbn [envs]. lia. }
  destruct (r_yield r) as [d|] eqn:Ey.
  - apply well_formed_env_schedule; [apply Hy; reflexivity | exact H1].
  - apply well_formed_env_schedule; [lia | exact H1].
Qed.

Lemma well_formed_step (ext : Ambient) (w w1 : World) (e : EnvRef) :
  well_formed w -> step_to ext w e = Some w1 -> well_formed w1.
Proof.
  intros Hw. unfold step_to, step.
  destruct (envs w !! e) as [x|] eqn:Hx; [|discriminate].
  destruct (heappop (queue x)) as [[ev rest]|] eqn:Hpop; [|discriminate].
  destruct (heappop_spec _ _ _ Hpop) as (Hin & Hmin & Hsub).
  destruct Hw as [Hq Hv].
  assert (Hnow : (now x <= ev_time ev)%Z).
  { pose proof (Hq e x Hx) as Hall. rewrite Forall_forall in Hall.
    apply Hall. apply list_elem_of_In. assumption. }
  set (w0 := mkWorld _ _ _ _ _ _).
  assert (Hmono : forall e', (now_of w e' <= now_of w0 e')%Z).
  { intros e'. unfold now_of. cbn [w0 envs].
    destruct (decide (e = e')) as [<-|Hne].
    - rewrite list_lookup_insert_eq by (eapply lookup_lt_Some; eassumption).
      rewrite Hx. cbn. assumption.
    - rewrite list_lookup_insert_ne by assumption. lia. }
  assert (H0 : well_formed w0).
  { split.
    - intros e' x'. cbn [w0 envs]. intros H.
      apply list_lookup_insert_Some in H.
      destruct H as [(<- & <- & _)|[_ H]]; [exact Hmin | apply (Hq e' x' H)].
    - intros v self Hself.
      eapply (scheduled_by_later w w0 _ _ _ v []);
        [cbn; rewrite app_nil_r; reflexivity | apply Hmono | apply (Hv v self Hself)]. }
  destruct (ev_callback ev); intros [= <-]; try assumption.
  apply well_formed_process_resume. assumption.
Qed.

Lemma well_formed_later (ext : Ambient) (w w' : World) :
  later ext w w' -> well_formed w -> well_formed w'.
Proof.
  induction 1 as [w | w w1 w2 e Hstep Hlater IH]; intros Hw.
  - assumption.
  - apply IH. eapply well_formed_step; eassumption.
Qed.

Lemma run_loop_later (ext : Ambient) (fuel : nat) :
  forall (w w' : World) (e : EnvRef),
    run_loop ext fuel w e = Some w' -> later ext w w'.
Proof.
  induction fuel as [|fuel IH]; intros w w' e; cbn [run_loop]; [discriminate|].
  destruct (step ext w e) as [w1|w1|] eqn:Hs.
  - intros H. apply (later_step ext w w1 w' e).
    + unfold step_to. rewrite Hs. reflexivity.
    + apply (IH _ _ e). assumption.
  - intros [= <-]. apply (later_step ext w w1 w1 e).
    + unfold step_to. rewrite Hs. reflexivity.
    + apply later_now.
  - intros [= <-]. apply later_now.
Qed.

Lemma well_formed_env_run (ext : Ambient) (fuel : nat) (w w' : World)
  (e : EnvRef) (until : Z) :
  env_run ext fuel w e until = Some (Returns w') ->
  well_formed w -> well_formed w'.
Proof.
  unfold env_run. destruct (until <=? now_of w e)%Z eqn:E; [discriminate|].
  destruct (run_loop ext fuel _ e) as [w1|] eqn:Hr; [|discriminate].
  intros [= <-] Hw.
  apply (well_formed_later ext _ _ (run_loop_later ext fuel _ _ e Hr)).
  apply well_formed_env_schedule; [lia | assumption].
Qed.

(** ** The setup of [main] *)

Lemma setup_environment_spec (vs : list VehicleRef) :
  forall (w : World) (e : EnvRef),
    vehicles (setup_environment w e vs) = vehicles w
    /\ procs (setup_environment w e vs)
       = procs w ++ map (fun v => mkProcess e v Created) vs.
Proof.
  unfold setup_environment.
  induction vs as [|v rest IH]; intros w e; cbn [fold_left map].
  - rewrite app_nil_r. split; reflexivity.
  - destruct (IH (env_process w e v).1 e) as [Hv Hp].
    rewrite Hv, Hp, env_process_vehicles, env_process_procs, <- app_assoc.
    split; reflexivity.
Qed.

Lemma Vehicle_init_spec (w w' : World) (env0 : EnvRef) (id : string)
  (start0 end0 : Coord) (account0 : UserAccount) (zones : list Polygon)
  (route0 : list Coord) (v : VehicleRef) :
  Vehicle_init w env0 id start0 end0 account0 zones route0 = Returns (w', v) ->
  v = length (vehicles w)
  /\ (exists self, vehicles w' = vehicles w ++ [self] /\ env self = env0)
  /\ procs w' = procs w ++ [mkProcess env0 v Created].
Proof.
  unfold Vehicle_init. intros H. injection H as Hw Hv. subst w' v.
  cbn [env_schedule vehicles procs].
  split; [reflexivity|]. split; [|reflexivity].
  eexists. split; reflexivity.
Qed.

(** The loop that creates the vehicles appends them to the store, all in
    the environment [e], each with one process. *)
Lemma create_vehicles_spec (zones : list Polygon)
  (drawn : list (list Coord * string)) :
  forall (w w' : World) (e : EnvRef) (i : nat) (vs : list VehicleRef),
    create_vehicles w e zones i drawn = Returns (w', vs) ->
    vs = seq (length (vehicles w)) (length drawn)
    /\ (exists news, vehicles w' = vehicles w ++ news
                     /\ length news = length drawn
                     /\ Forall (fun self => env self = e) news)
    /\ procs w' = procs w ++ map (fun v => mkProcess e v Created) vs
    /\ (well_formed w -> well_formed w').
Proof.
  induction drawn as [|[route0 vendor0] rest IH]; intros w w' e i vs;
    cbn [create_vehicles].
  - intros [= <- <-]. cbn [length seq map]. rewrite app_nil_r.
    split; [reflexivity|]. split; [|split; [reflexivity | trivial]].
    exists []. rewrite app_nil_r. auto.
  - destruct route0 as [|first more]; [discriminate|].
    destruct (Vehicle_init w e (vehicle_name i) first
                (List.last (first :: more) first) (UserAccount_init 100 vendor0)
                zones (first :: more)) as [[w1 v]|exn] eqn:Hinit; [|discriminate].
    destruct (create_vehicles w1 e zones (S i) rest) as [[w2 vs2]|exn] eqn:Hrest;
      [|discriminate].
    intros [= <- <-].
    pose proof (well_formed_Vehicle_init _ _ _ _ _ _ _ _ _ _ Hinit) as Hwf1.
    destruct (Vehicle_init_spec _ _ _ _ _ _ _ _ _ _ Hinit)
      as (-> & (self & Hv1 & He1) & Hp1).
    destruct (IH _ _ _ _ _ Hrest) as (Hvs & (news & Hnews & Hlen & Henv) & Hp & Hwf).
    rewrite Hv1 in Hvs, Hnews. rewrite Hp1 in Hp.
    rewrite length_app in Hvs. cbn [length] in Hvs.
    replace (length (vehicles w) + 1)%nat with (S (length (vehicles w))) in Hvs
      by lia.
    split; [|split; [|split]].
    + cbn [length seq]. rewrite Hvs. reflexivity.
    + eexists (_ :: news). rewrite Hnews, <- app_assoc. split; [reflexivity|].
      split; [cbn; lia|]. constructor; assumption.
    + rewrite Hp, <- app_assoc. reflexivity.
    + intros Hw. apply Hwf, Hwf1, Hw.
Qed.

Lemma main_setup_spec (zones : list Polygon)
  (drawn : list (list Coord * string)) (w : World) (e : EnvRef)
  (vs : list VehicleRef) :
  main_setup zones drawn = Returns (w, e, vs) ->
  vs = seq 0 (length drawn)
  /\ procs w = map (fun v => mkProcess e v Created) (vs ++ vs)
  /\ Forall (fun v => exists self, vehicles w !! v = Some self /\ env self = e) vs
  /\ well_formed w.
Proof.
  unfold main_setup.
  pose proof (well_formed_new_environment World_init well_formed_init) as Hw0.
  destruct (new_environment World_init) as [w0 e0] eqn:Hnew.
  injection Hnew as <- <-. cbn [fst] in Hw0.
  match goal with
  | |- context [create_vehicles ?a ?b ?c ?d ?f] =>
      destruct (create_vehicles a b c d f) as [[w1 vs1]|exn] eqn:Hc;
        [|discriminate]
  end.
  intros [= <- <- <-].
  destruct (create_vehicles_spec _ _ _ _ _ _ _ Hc)
    as (Hvs & (news & Hnews & Hlen & Henv) & Hp & Hwf).
  cbn [vehicles procs envs World_init length app] in *.
  destruct (setup_environment_spec vs1 w1 0%nat) as [Hv2 Hp2].
  split; [|split; [|split]].
  - assumption.
  - rewrite Hp2, Hp, map_app. reflexivity.
  - rewrite Hv2, Hnews, Hvs, <- Hlen. clear Hlen Hvs.
    apply Forall_forall. intros v Hv. apply elem_of_seq in Hv.
    destruct (news !! v) as [self|] eqn:Hs.
    + exists self. split; [reflexivity|].
      rewrite Forall_forall in Henv. apply Henv.
      eapply list_elem_of_lookup_2. eassumption.
    + apply lookup_ge_None_1 in Hs. lia.
  - apply well_formed_setup_environment. apply Hwf. exact Hw0.
Qed.

(** ** The query *)

Lemma query_vehicle_count_from (w : World) (e : EnvRef) (vs : list VehicleRef) :
  forall acc : Z,
    fold_left
      (fun acc v =>
         match vehicles w !! v with
         | Some vehicle =>
             if (now_of w (env vehicle) <=? now_of w e)%Z
             then (acc + 1)%Z else acc
         | None => acc
         end) vs acc
    = (acc + Z.of_nat (length (List.filter (clock_not_ahead w e) vs)))%Z.
Proof.
  induction vs as [|v rest IH]; intros acc; cbn [fold_left List.filter].
  - cbn. lia.
  - rewrite IH. unfold clock_not_ahead at 2.
    destruct (vehicles w !! v) as [vehicle|]; [|reflexivity].
    destruct (now_of w (env vehicle) <=? now_of w e)%Z; cbn [length]; lia.
Qed.

(** What the query counts: the vehicles whose own environment's clock is
    not ahead of the clock of [e]. *)
Lemma query_vehicle_count_clocks (w : World) (e : EnvRef)
  (vs : list VehicleRef) :
  query_vehicle_count w e vs
  = Z.of_nat (length (List.filter (clock_not_ahead w e) vs)).
Proof. unfold query_vehicle_count. rewrite query_vehicle_count_from. lia. Qed.

(** ** Processes per vehicle *)

Lemma processes_in_seq_before (e : EnvRef) (v : VehicleRef) (n : nat) :
  forall a : nat,
    (v < a)%nat ->
    List.filter (fun pr => (p_vehicle pr =? v)%nat)
      (map (fun v => mkProcess e v Created) (seq a n)) = [].
Proof.
  induction n as [|n IH]; intros a Ha; cbn [seq map List.filter p_vehicle].
  - reflexivity.
  - destruct (Nat.eqb_spec a v) as [->|_]; [lia|]. apply IH. lia.
Qed.

Lemma processes_in_seq (e : EnvRef) (v : VehicleRef) (n : nat) :
  forall a : nat,
    (a <= v < a + n)%nat ->
    List.filter (fun pr => (p_vehicle pr =? v)%nat)
      (map (fun v => mkProcess e v Created) (seq a n))
    = [mkProcess e v Created].
Proof.
  induction n as [|n IH]; intros a Ha; cbn [seq map List.filter p_vehicle].
  - lia.
  - destruct (Nat.eqb_spec a v) as [->|Hne].
    + rewrite processes_in_seq_before by lia. reflexivity.
    + apply IH. lia.
Qed.

(** When [main] has called [setup_environment], every vehicle has two
    processes: the one its constructor registered and the one
    [setup_environment] registered, both over the same vehicle object. *)
Lemma main_setup_two_processes (zones : list Polygon)
  (drawn : list (list Coord * string)) (w : World) (e : EnvRef)
  (vs : list VehicleRef) (v : VehicleRef) :
  main_setup zones drawn = Returns (w, e, vs) ->
  In v vs ->
  processes_of w v = [mkProcess e v Created; mkProcess e v Created].
Proof.
  intros Hm Hv.
  destruct (main_setup_spec _ _ _ _ _ Hm) as (Hvs & Hp & _ & _).
  unfold processes_of. rewrite Hp, map_app, List.filter_app.
  subst vs. apply in_seq in Hv.
  rewrite processes_in_seq by lia. reflexivity.
Qed.

(** C1 fails on the code: in [main] with one zone and one vehicle standing
    inside it, the vehicle has two registered processes, and at the tick of
    time 0 both of them set its position and debit its ledger. *)
Theorem vehicle_advanced_twice_per_tick :
  let w := Scenario.after_setup in
  let w' := steps Scenario.calm 2 w 0 in
  let toll := calculate_toll 12 0 in
  processes_of w 0%nat
  = [mkProcess 0 0 Created; mkProcess 0 0 Created]
  /\ now_of w' 0%nat = 0%Z
  /\ updates_at w' 0%nat 0%Z 0%nat
     = [ (0%nat, SetPosition Scenario.centre); (0%nat, Debit toll);
         (1%nat, SetPosition Scenario.centre); (1%nat, Debit toll) ]
  /\ (payments ∘ account) <$> vehicles w' !! 0%nat = Some [toll; toll].
Proof. vm_compute. repeat split. Qed.

(** The whole run of [main] on that input: the route has two waypoints in
    one zone, and the ledger is debited four times. *)
Lemma main_debits_each_waypoint_twice :
  match main Scenario.calm 20 [Scenario.zone] Scenario.fleet with
  | Some (Returns (w, count)) =>
      (length ∘ payments ∘ account) <$> vehicles w !! 0%nat = Some 4%nat
      /\ now_of w 0%nat = 100%Z
  | _ => False
  end.
Proof. vm_compute. split; reflexivity. Qed.

(** C2 fails on the code, through the double registration of C1: in [main]
    with one zone that contains the position of the one vehicle, the ledger
    is debited twice in the tick of time 0 and twice in the tick of time 1,
    once by each of the two processes, where the claim has one debit per
    containing zone per tick.  Each amount is [calculate_toll] of the
    distance from the start to the position, here 0. *)
Theorem zone_debited_twice_per_tick :
  match main Scenario.calm 20 [Scenario.zone] Scenario.fleet with
  | Some (Returns (w, _)) =>
      let toll := calculate_toll 12 0 in
      length (zones_containing [Scenario.zone] Scenario.centre) = 1%nat
      /\ debits_at w 0 0 0 = [ (0%nat, Debit toll); (1%nat, Debit toll) ]
      /\ debits_at w 0 1 0 = [ (0%nat, Debit toll); (1%nat, Debit toll) ]
      /\ debits_at w 0 2 0 = []
  | _ => False
  end.
Proof. vm_compute. repeat split. Qed.

(** * Further properties of the code *)

(** ** Pricing: time slots and the congestion threshold *)

Lemma get_time_slot_peak (h : Z) :
  ((7 <= h <= 9) \/ (17 <= h <= 19))%Z -> get_time_slot h = peak.
Proof.
  intros H. unfold get_time_slot.
  destruct ((7 <=? h)%Z && (h <=? 9)%Z || (17 <=? h)%Z && (h <=? 19)%Z) eqn:E;
    [reflexivity | lia].
Qed.

Lemma get_time_slot_off_peak (h : Z) :
  (h < 7 \/ 9 < h < 17 \/ 19 < h)%Z -> get_time_slot h = off_peak.
Proof.
  intros H. unfold get_time_slot.
  destruct ((7 <=? h)%Z && (h <=? 9)%Z || (17 <=? h)%Z && (h <=? 19)%Z) eqn:E;
    [lia | reflexivity].
Qed.

(** For the same non-negative distance, the toll in the hours 7 to 9 and 17
    to 19 (ends included) is never less than the toll of any other hour. *)
Theorem peak_hours_cost_no_less (h1 h2 : Z) (d : Q) :
  ((7 <= h1 <= 9) \/ (17 <= h1 <= 19))%Z ->
  (h2 < 7 \/ 9 < h2 < 17 \/ 19 < h2)%Z ->
  0 <= d ->
  calculate_toll h2 d <= calculate_toll h1 d.
Proof.
  intros H1 H2 Hd. rewrite !calculate_toll_eq.
  rewrite (get_time_slot_peak h1 H1), (get_time_slot_off_peak h2 H2).
  unfold base_charge, TIME_SLOT_RATE, TOLL_RATE_PER_KM, FIXED_TOLL_FEE,
    DYNAMIC_PRICING_RATE.
  destruct (Qltb CONGESTION_THRESHOLD d); lra.
Qed.

Lemma peak_hours_cost_no_less_witness :
  calculate_toll 10 25 <= calculate_toll 9 25.
Proof. apply (peak_hours_cost_no_less 9 10 25); [lia | lia | discriminate]. Defined.

(** The congestion surcharge starts strictly above 10 km and is charged on
    the whole distance: at exactly 10 km the toll is computed without a
    congestion part, and any distance above 10 km costs at least the toll
    of 10 km plus the surcharge on 10 km, [16.4]. *)
Theorem congestion_threshold_jump (hour : Z) (d : Q) :
  CONGESTION_THRESHOLD < d ->
  calculate_toll hour CONGESTION_THRESHOLD
  = base_charge CONGESTION_THRESHOLD
    + CONGESTION_THRESHOLD * TIME_SLOT_RATE (get_time_slot hour)
  /\ calculate_toll hour CONGESTION_THRESHOLD
     + CONGESTION_THRESHOLD * DYNAMIC_PRICING_RATE
     <= calculate_toll hour d.
Proof.
  intros Hd. split; [reflexivity|]. rewrite !calculate_toll_eq.
  pose proof (TIME_SLOT_RATE_pos (get_time_slot hour)) as Hs.
  set (s := TIME_SLOT_RATE (get_time_slot hour)) in *.
  assert (E10 : Qltb CONGESTION_THRESHOLD CONGESTION_THRESHOLD = false)
    by reflexivity.
  assert (Ed : Qltb CONGESTION_THRESHOLD d = true) by (apply Qltb_lt; exact Hd).
  rewrite E10, Ed.
  unfold base_charge, TOLL_RATE_PER_KM, FIXED_TOLL_FEE, DYNAMIC_PRICING_RATE,
    CONGESTION_THRESHOLD in *.
  assert (Hds : 10 * s <= d * s) by (apply Qmult_le_compat_r; lra).
  lra.
Qed.

Lemma congestion_threshold_jump_witness :
  calculate_toll 12 CONGESTION_THRESHOLD
  + CONGESTION_THRESHOLD * DYNAMIC_PRICING_RATE
  <= calculate_toll 12 (1001 # 100).
Proof.
  apply (congestion_threshold_jump 12 (1001 # 100)). reflexivity.
Defined.

(** ** The speed check *)

Lemma check_speed_limit_filter (ext : Ambient) (self : Vehicle) :
  check_speed_limit ext self
  = map (speed_advisory self)
      (List.filter
         (fun entry =>
            Qltb entry.2 (calculate_distance ext (start self) (position self)))
         SPEED_LIMIT_SECTIONS).
Proof.
  unfold check_speed_limit. generalize SPEED_LIMIT_SECTIONS. intros l.
  induction l as [|[s lim] l IH]; [reflexivity|].
  cbn [flat_map List.filter snd]. rewrite IH.
  destruct (Qltb lim _); reflexivity.
Qed.

(** [check_speed_limit] reports the sections whose limit is below the
    distance from [start] to the position, in the order of the table, and
    the reports nest: none up to 60 km, the first alone up to 80 km, the
    first two up to 100 km, all three beyond. *)
Theorem check_speed_limit_nested (ext : Ambient) (self : Vehicle) :
  let d := calculate_distance ext (start self) (position self) in
  let all := map (speed_advisory self) SPEED_LIMIT_SECTIONS in
  (d <= 60 -> check_speed_limit ext self = [])
  /\ (60 < d -> d <= 80 -> check_speed_limit ext self = firstn 1 all)
  /\ (80 < d -> d <= 100 -> check_speed_limit ext self = firstn 2 all)
  /\ (100 < d -> check_speed_limit ext self = all).
Proof.
  cbv zeta. rewrite check_speed_limit_filter.
  set (d := calculate_distance ext (start self) (position self)).
  unfold SPEED_LIMIT_SECTIONS. cbn [List.filter snd map firstn].
  repeat split; intros;
    repeat match goal with
      | |- context [Qltb ?l d] =>
          let E := fresh "E" in
          destruct (Qltb l d) eqn:E;
          [apply Qltb_lt in E | apply Qltb_ge in E]
      end;
    try reflexivity; exfalso; lra.
Qed.

Lemma check_speed_limit_nested_witness :
  check_speed_limit Scenario.calm (Scenario.parked 0 [Scenario.zone]) = [].
Proof.
  apply (check_speed_limit_nested Scenario.calm
           (Scenario.parked 0 [Scenario.zone])).
  discriminate.
Defined.

(** ** Relations that every step of a run keeps *)

Section RunInvariant.

Variable ext : Ambient.
Variable R : Vehicle -> Vehicle -> Prop.
Hypothesis R_refl : forall a, R a a.
Hypothesis R_trans : forall a b c, R a b -> R b c -> R a c.
Hypothesis R_stationary : forall a, R a (stationary_check a).
Hypothesis R_move :
  forall a p clock,
    In p (route a) -> R a (check_toll_zone ext (set_position a p) clock).1.1.

Lemma loop_head_related (a : Vehicle) (i clock rng : nat) :
  R a (r_vehicle (loop_head ext a i clock rng)).
Proof.
  unfold loop_head.
  destruct (route a !! i) as [p|] eqn:Hp; [|apply R_refl].
  destruct (5 <=? stationary_time a)%Z; [apply R_refl|].
  assert (Hin : In p (route a)).
  { apply list_elem_of_In. eapply list_elem_of_lookup_2. eassumption. }
  pose proof (R_move a p clock Hin) as H.
  destruct (check_toll_zone ext (set_position a p) clock)
    as [[self2 clock2] effs].
  exact H.
Qed.

Lemma resume_run_related (a : Vehicle) (g : GenState) (clock rng : nat) :
  R a (r_vehicle (resume_run ext a g clock rng)).
Proof.
  destruct g as [|i|i|how]; cbn [resume_run].
  - apply loop_head_related.
  - destruct (Qltb _ _); [apply R_refl|].
    cbn [and_before r_vehicle].
    eapply R_trans; [apply R_stationary | apply loop_head_related].
  - cbn [and_before r_vehicle].
    eapply R_trans; [apply R_stationary | apply loop_head_related].
  - apply R_refl.
Qed.

Lemma process_resume_related (w : World) (e : EnvRef) (pid : ProcRef)
  (v : VehicleRef) (a : Vehicle) :
  vehicles w !! v = Some a ->
  exists b, vehicles (process_resume ext w e pid) !! v = Some b /\ R a b.
Proof.
  intros Ha. unfold process_resume.
  destruct (procs w !! pid) as [pr|]; [|exists a; auto].
  destruct (vehicles w !! p_vehicle pr) as [self|] eqn:Hself; [|exists a; auto].
  destruct (is_finished (p_gen pr)); [exists a; auto|].
  set (r := resume_run ext self (p_gen pr) (clock_reads w) (rng_draws w)).
  assert (H : exists b,
             <[p_vehicle pr := r_vehicle r]> (vehicles w) !! v = Some b
             /\ R a b).
  { destruct (decide (p_vehicle pr = v)) as [<-|Hne].
    - exists (r_vehicle r). split.
      + apply list_lookup_insert_eq. eapply lookup_lt_Some. eassumption.
      + rewrite Hself in Ha. injection Ha as <-. apply resume_run_related.
    - exists a. split; [|apply R_refl].
      rewrite list_lookup_insert_ne by assumption. assumption. }
  destruct (r_yield r); exact H.
Qed.

Lemma step_related (w w1 : World) (e : EnvRef) (v : VehicleRef) (a : Vehicle) :
  step_to ext w e = Some w1 -> vehicles w !! v = Some a ->
  exists b, vehicles w1 !! v = Some b /\ R a b.
Proof.
  unfold step_to, step. intros Hs Ha.
  destruct (envs w !! e) as [x|]; [|discriminate].
  destruct (heappop (queue x)) as [[ev rest]|]; [|discriminate].
  destruct (ev_callback ev); injection Hs as <-;
    try (exists a; split; [exact Ha | apply R_refl]).
  apply process_resume_related. exact Ha.
Qed.

Lemma later_related (w w' : World) :
  later ext w w' ->
  forall (v : VehicleRef) (a : Vehicle),
    vehicles w !! v = Some a ->
    exists b, vehicles w' !! v = Some b /\ R a b.
Proof.
  induction 1 as [w | w w1 w2 e Hstep Hlater IH]; intros v a Ha.
  - exists a. auto.
  - destruct (step_related w w1 e v a Hstep Ha) as (b & Hb & Hab).
    destruct (IH v b Hb) as (c & Hc & Hbc).
    exists c. split; [assumption|]. eapply R_trans; eassumption.
Qed.

End RunInvariant.

(** ** The relation between a vehicle earlier and later in a run *)

Lemma py_sum_app (l1 l2 : list Q) : py_sum (l1 ++ l2) == py_sum l1 + py_sum l2.
Proof.
  unfold py_sum at 1. rewrite fold_left_app, py_sum_from.
  fold (py_sum l1). lra.
Qed.

Lemma FIXED_TOLL_FEE_le_calculate_toll (hour : Z) (d : Q) :
  0 <= d -> FIXED_TOLL_FEE <= calculate_toll hour d.
Proof.
  intros Hd. rewrite calculate_toll_eq. unfold base_charge.
  pose proof (TIME_SLOT_RATE_pos (get_time_slot hour)) as Hs.
  set (s := TIME_SLOT_RATE (get_time_slot hour)) in *.
  assert (Hds : 0 <= d * s) by (apply Qmult_le_0_compat; lra).
  unfold TOLL_RATE_PER_KM, FIXED_TOLL_FEE, DYNAMIC_PRICING_RATE.
  destruct (Qltb CONGESTION_THRESHOLD d); lra.
Qed.

Lemma same_identity_refl (a : Vehicle) : same_identity a a.
Proof. repeat split. Qed.

Lemma same_identity_trans (a b c : Vehicle) :
  same_identity a b -> same_identity b c -> same_identity a c.
Proof.
  unfold same_identity.
  intros (H1 & H2 & H3 & H4 & H5 & H6 & H7 & H8)
         (G1 & G2 & G3 & G4 & G5 & G6 & G7 & G8).
  repeat split; congruence.
Qed.

Lemma route_outside_zones_identity (a b : Vehicle) :
  same_identity a b -> route_outside_zones b = route_outside_zones a.
Proof.
  intros (_ & _ & _ & _ & Hz & Hr & _). unfold route_outside_zones.
  rewrite Hz, Hr. reflexivity.
Qed.

Lemma route_outside_zones_waypoint (a : Vehicle) (p : Coord) :
  route_outside_zones a = true -> In p (route a) ->
  zones_containing (toll_zones a) p = [].
Proof.
  unfold route_outside_zones, zones_containing. intros H Hp.
  rewrite forallb_forall in H. specialize (H p Hp).
  induction (toll_zones a) as [|z zs IH]; [reflexivity|].
  cbn [forallb List.filter] in *. apply andb_true_iff in H.
  destruct H as [Hz Hzs]. apply negb_true_iff in Hz. rewrite Hz. auto.
Qed.

Lemma run_relation_refl (ext : Ambient) (a : Vehicle) : run_relation ext a a.
Proof.
  split; [apply same_identity_refl|]. split; [left; reflexivity|].
  split; [trivial|]. exists []. split; [|split; [reflexivity | constructor]].
  split; [rewrite app_nil_r; reflexivity|]. unfold py_sum; cbn; lra.
Qed.

Lemma run_relation_trans (ext : Ambient) (a b c : Vehicle) :
  run_relation ext a b -> run_relation ext b c -> run_relation ext a c.
Proof.
  intros (Iab & Pab & Sab & m1 & [Lp1 Lb1] & O1 & F1)
         (Ibc & Pbc & Sbc & m2 & [Lp2 Lb2] & O2 & F2).
  split; [eapply same_identity_trans; eassumption|].
  split.
  { destruct Pbc as [->|Hin]; [exact Pab|].
    right. destruct Iab as (_ & _ & _ & _ & _ & Hr & _).
    rewrite <- Hr. exact Hin. }
  split; [auto|].
  exists (m1 ++ m2). split; [|split].
  - split.
    + rewrite Lp2, Lp1, <- app_assoc. reflexivity.
    + pose proof (py_sum_app m1 m2). lra.
  - intros Ho. rewrite (O1 Ho), O2; [reflexivity|].
    rewrite (route_outside_zones_identity a b Iab). exact Ho.
  - intros Hg. apply Forall_app. split; auto.
Qed.

Lemma run_relation_stationary (ext : Ambient) (a : Vehicle) :
  run_relation ext a (stationary_check a).
Proof.
  unfold stationary_check.
  destruct (coord_eqb _ _);
    (split; [repeat split|]; split; [left; reflexivity|];
     split; [cbn; lia|]; exists [];
     split; [|split; [reflexivity | constructor]];
     split; cbn; [rewrite app_nil_r; reflexivity | unfold py_sum; cbn; lra]).
Qed.

Lemma run_relation_move (ext : Ambient) (a : Vehicle) (p : Coord)
  (clock : nat) :
  In p (route a) ->
  run_relation ext a (check_toll_zone ext (set_position a p) clock).1.1.
Proof.
  intros Hp. unfold check_toll_zone.
  destruct (check_toll_zone_from_spec ext (toll_zones (set_position a p))
              (set_position a p) clock) as (-> & _ & _).
  cbn [toll_zones position start account set_position].
  set (k := length (zones_containing (toll_zones a) p)).
  set (d := calculate_distance ext (start a) p).
  destruct (deduct_tolls_from (tolls_of_check ext clock k d) (account a))
    as (Hb & Hpay & Hv & _).
  split; [repeat split; cbn; auto|].
  split; [right; exact Hp|]. split; [cbn; auto|].
  exists (tolls_of_check ext clock k d). split; [|split].
  - split; cbn [account set_account]; assumption.
  - intros Ho. unfold k.
    rewrite (route_outside_zones_waypoint a p Ho Hp). reflexivity.
  - intros Hg. unfold tolls_of_check. apply Forall_map, Forall_forall.
    intros c _. apply FIXED_TOLL_FEE_le_calculate_toll. apply Hg.
Qed.

(** Whatever the environments do, a vehicle stays in the store and stays
    related to what it was. *)
Lemma later_run_relation (ext : Ambient) (w w' : World) (v : VehicleRef)
  (a : Vehicle) :
  later ext w w' -> vehicles w !! v = Some a ->
  exists b, vehicles w' !! v = Some b /\ run_relation ext a b.
Proof.
  intros Hl Ha.
  apply (later_related ext (run_relation ext) (run_relation_refl ext)
           (run_relation_trans ext) (run_relation_stationary ext)
           (run_relation_move ext) w w' Hl v a Ha).
Qed.

(** ** What a run does to a vehicle *)

(** A run never changes a vehicle's environment, identifier, start, end,
    zones, route, process handle or vendor, and never removes a vehicle:
    whatever the environments do, the vehicle is still in the store with
    all of these as they were. *)
Theorem run_keeps_identity (ext : Ambient) (w w' : World) (v : VehicleRef)
  (a : Vehicle) :
  later ext w w' -> vehicles w !! v = Some a ->
  exists b, vehicles w' !! v = Some b /\ same_identity a b.
Proof.
  intros Hl Ha.
  destruct (later_run_relation ext w w' v a Hl Ha) as (b & Hb & Hi & _).
  exists b. split; assumption.
Qed.

(** The position of a vehicle is only ever set to a waypoint of its route:
    later in a run it is the position it had or one of the waypoints, and a
    stationary counter that was non-negative is still non-negative. *)
Theorem run_position_on_route (ext : Ambient) (w w' : World) (v : VehicleRef)
  (a : Vehicle) :
  later ext w w' -> vehicles w !! v = Some a ->
  exists b,
    vehicles w' !! v = Some b
    /\ (position b = position a \/ In (position b) (route b))
    /\ ((0 <= stationary_time a)%Z -> (0 <= stationary_time b)%Z).
Proof.
  intros Hl Ha.
  destruct (later_run_relation ext w w' v a Hl Ha)
    as (b & Hb & Hi & Hp & Hs & _).
  exists b. split; [assumption|]. split; [|assumption].
  destruct Hi as (_ & _ & _ & _ & _ & Hr & _). rewrite Hr. exact Hp.
Qed.

Lemma ledger_replay_refl (a : Vehicle) : ledger_replay a a.
Proof. exists []. rewrite app_nil_r. split; reflexivity. Qed.

Lemma ledger_replay_trans (a b c : Vehicle) :
  ledger_replay a b -> ledger_replay b c -> ledger_replay a c.
Proof.
  intros (m1 & Hp1 & Hb1) (m2 & Hp2 & Hb2). exists (m1 ++ m2). split.
  - rewrite Hp2, Hp1, <- app_assoc. reflexivity.
  - rewrite Hb2, Hb1. unfold balance_after. rewrite fold_left_app.
    reflexivity.
Qed.

Lemma ledger_replay_stationary (a : Vehicle) :
  ledger_replay a (stationary_check a).
Proof.
  destruct (stationary_check_frame a) as [_ Hacc].
  exists []. rewrite Hacc, app_nil_r. split; reflexivity.
Qed.

Lemma ledger_replay_move (ext : Ambient) (a : Vehicle) (p : Coord)
  (clock : nat) :
  In p (route a) ->
  ledger_replay a (check_toll_zone ext (set_position a p) clock).1.1.
Proof.
  intros _. unfold check_toll_zone.
  destruct (check_toll_zone_from_spec ext (toll_zones (set_position a p))
              (set_position a p) clock) as (-> & _ & _).
  cbn [toll_zones position start account set_position set_account].
  set (amounts := tolls_of_check ext clock _ _).
  destruct (deduct_tolls_from amounts (account a)) as (_ & Hpay & _ & _).
  exists amounts. split; [exact Hpay | apply deduct_tolls_balance_after].
Qed.

(** The ledger is append-only through a run, and the balance follows it:
    the payments later are the payments before followed by the new debits,
    and the balance later is the balance before with the new debits
    subtracted one at a time, in that order. *)
Theorem run_ledger_append_only (ext : Ambient) (w w' : World)
  (v : VehicleRef) (a : Vehicle) :
  later ext w w' -> vehicles w !! v = Some a ->
  exists (b : Vehicle) (more : list Q),
    vehicles w' !! v = Some b
    /\ payments (account b) = payments (account a) ++ more
    /\ balance (account b) = balance_after (balance (account a)) more.
Proof.
  intros Hl Ha.
  destruct (later_related ext ledger_replay ledger_replay_refl
              ledger_replay_trans ledger_replay_stationary
              (ledger_replay_move ext) w w' Hl v a Ha)
    as (b & Hb & more & Hp & Hbal).
  exists b, more. auto.
Qed.

(** A vehicle whose route has no waypoint inside a zone is never debited,
    whatever its start position and however long the run. *)
Theorem run_outside_zones_no_debit (ext : Ambient) (w w' : World)
  (v : VehicleRef) (a : Vehicle) :
  route_outside_zones a = true ->
  later ext w w' -> vehicles w !! v = Some a ->
  exists b,
    vehicles w' !! v = Some b
    /\ payments (account b) = payments (account a)
    /\ balance (account b) == balance (account a).
Proof.
  intros Ho Hl Ha.
  destruct (later_run_relation ext w w' v a Hl Ha)
    as (b & Hb & _ & _ & _ & more & [Hp Hbal] & Hm & _).
  rewrite (Hm Ho) in Hp, Hbal. rewrite app_nil_r in Hp.
  exists b. split; [assumption|]. split; [assumption|].
  unfold py_sum in Hbal. cbn in Hbal. lra.
Qed.

Lemma py_sum_floor (c : Q) (l : list Q) :
  Forall (fun x => c <= x) l -> c * inject_Z (Z.of_nat (length l)) <= py_sum l.
Proof.
  induction 1 as [|x l Hx Hl IH].
  - unfold py_sum. cbn [length fold_left].
    change (inject_Z (Z.of_nat 0)) with 0. lra.
  - pose proof (py_sum_cons x l) as Hs.
    replace (Z.of_nat (length (x :: l))) with (Z.of_nat (length l) + 1)%Z
      by (cbn [length]; lia).
    rewrite inject_Z_plus. change (inject_Z 1) with 1. lra.
Qed.

(** When distances are non-negative, every debit of a run is at least the
    fixed fee of 164: after [n] new debits the balance is at least [164 n]
    lower, with no floor (one debit overdraws the 100 of [main]). *)
Theorem run_debits_at_least_fixed_fee (ext : Ambient) (w w' : World)
  (v : VehicleRef) (a : Vehicle) :
  (forall x y, 0 <= geodesic_km ext x y) ->
  later ext w w' -> vehicles w !! v = Some a ->
  exists (b : Vehicle) (more : list Q),
    vehicles w' !! v = Some b
    /\ payments (account b) = payments (account a) ++ more
    /\ Forall (fun amount => FIXED_TOLL_FEE <= amount) more
    /\ balance (account b)
       <= balance (account a)
          - FIXED_TOLL_FEE * inject_Z (Z.of_nat (length more)).
Proof.
  intros Hg Hl Ha.
  destruct (later_run_relation ext w w' v a Hl Ha)
    as (b & Hb & _ & _ & _ & more & [Hp Hbal] & _ & Hf).
  exists b, more. split; [assumption|]. split; [assumption|].
  split; [auto|]. pose proof (py_sum_floor _ _ (Hf Hg)). lra.
Qed.

Lemma steps_later (ext : Ambient) (k : nat) :
  forall (w : World) (e : EnvRef), later ext w (steps ext k w e).
Proof.
  induction k as [|k IH]; intros w e; cbn [steps].
  - apply later_now.
  - destruct (step ext w e) as [w1|w1|] eqn:Hs.
    + apply (later_step ext w w1 _ e); [|apply IH].
      unfold step_to. rewrite Hs. reflexivity.
    + apply (later_step ext w w1 _ e); [|apply later_now].
      unfold step_to. rewrite Hs. reflexivity.
    + apply later_now.
Qed.

Lemma run_keeps_identity_witness :
  exists b,
    vehicles (steps Scenario.calm 4 Scenario.after_setup 0) !! 0%nat = Some b
    /\ same_identity (Scenario.parked 0 [Scenario.zone]) b.
Proof.
  apply (run_keeps_identity Scenario.calm Scenario.after_setup
           (steps Scenario.calm 4 Scenario.after_setup 0) 0
           (Scenario.parked 0 [Scenario.zone])).
  - apply steps_later.
  - reflexivity.
Defined.

Lemma run_position_on_route_witness :
  exists b,
    vehicles (steps Scenario.calm 4 Scenario.after_setup 0) !! 0%nat = Some b
    /\ (position b = position (Scenario.parked 0 [Scenario.zone])
        \/ In (position b) (route b))
    /\ ((0 <= stationary_time (Scenario.parked 0 [Scenario.zone]))%Z ->
        (0 <= stationary_time b)%Z).
Proof.
  apply (run_position_on_route Scenario.calm Scenario.after_setup
           (steps Scenario.calm 4 Scenario.after_setup 0) 0
           (Scenario.parked 0 [Scenario.zone])).
  - apply steps_later.
  - reflexivity.
Defined.

Lemma run_ledger_append_only_witness :
  exists (b : Vehicle) (more : list Q),
    vehicles (steps Scenario.calm 4 Scenario.after_setup 0) !! 0%nat = Some b
    /\ payments (account b) = [] ++ more
    /\ balance (account b) = balance_after 100 more.
Proof.
  apply (run_ledger_append_only Scenario.calm Scenario.after_setup
           (steps Scenario.calm 4 Scenario.after_setup 0) 0
           (Scenario.parked 0 [Scenario.zone])).
  - apply steps_later.
  - reflexivity.
Defined.

Lemma run_outside_zones_no_debit_witness :
  exists b,
    vehicles (steps Scenario.calm 4 Detour.after_setup 0) !! 0%nat = Some b
    /\ payments (account b) = []
    /\ balance (account b) == 100.
Proof.
  apply (run_outside_zones_no_debit Scenario.calm Detour.after_setup
           (steps Scenario.calm 4 Detour.after_setup 0) 0 Detour.vehicle_0).
  - reflexivity.
  - apply steps_later.
  - reflexivity.
Defined.

Lemma run_debits_at_least_fixed_fee_witness :
  exists (b : Vehicle) (more : list Q),
    vehicles (steps Scenario.calm 4 Scenario.after_setup 0) !! 0%nat = Some b
    /\ payments (account b) = [] ++ more
    /\ Forall (fun amount => FIXED_TOLL_FEE <= amount) more
    /\ balance (account b)
       <= 100 - FIXED_TOLL_FEE * inject_Z (Z.of_nat (length more)).
Proof.
  apply (run_debits_at_least_fixed_fee Scenario.calm Scenario.after_setup
           (steps Scenario.calm 4 Scenario.after_setup 0) 0
           (Scenario.parked 0 [Scenario.zone])).
  - intros x y. cbn. discriminate.
  - apply steps_later.
  - reflexivity.
Defined.

(** ** The vehicles of [main] *)

Lemma later_vehicles_length (ext : Ambient) (w w' : World) :
  later ext w w' -> length (vehicles w') = length (vehicles w).
Proof.
  induction 1 as [w | w w1 w2 e Hstep Hlater IH]; [reflexivity|].
  rewrite IH. clear IH Hlater. unfold step_to, step in Hstep.
  destruct (envs w !! e) as [x|]; [|discriminate].
  destruct (heappop (queue x)) as [[ev rest]|]; [|discriminate].
  destruct (ev_callback ev); injection Hstep as <-; try reflexivity.
  unfold process_resume. cbn [procs vehicles clock_reads rng_draws].
  destruct (procs w !! p) as [pr|]; [|reflexivity].
  destruct (vehicles w !! p_vehicle pr) as [self|]; [|reflexivity].
  destruct (is_finished (p_gen pr)); [reflexivity|].
  destruct (r_yield _); cbn [env_schedule vehicles]; apply length_insert.
Qed.









(** ** The report *)

Lemma generate_report_from (ext : Ambient) (w : World) (vs : list VehicleRef) :
  forall acc : Report,
    fold_left
      (fun report v =>
         match vehicles w !! v with
         | Some vehicle =>
             let total_distance :=
               calculate_distance ext (start vehicle) (end_ vehicle) in
             let total_toll := py_sum (payments (account vehicle)) in
             mkReport
               (col_vehicle_id report ++ [vehicle_id vehicle])
               (col_total_distance report ++ [total_distance])
               (col_total_toll report ++ [total_toll])
               (col_payment_vendor report ++ [vendor (account vehicle)])
         | None => report
         end) vs acc
    = mkReport
        (col_vehicle_id acc ++ omap (fun v => vehicle_id <$> vehicles w !! v) vs)
        (col_total_distance acc
           ++ omap (fun v =>
                      (fun a => calculate_distance ext (start a) (end_ a))
                        <$> vehicles w !! v) vs)
        (col_total_toll acc
           ++ omap (fun v =>
                      (fun a => py_sum (payments (account a)))
                        <$> vehicles w !! v) vs)
        (col_payment_vendor acc
           ++ omap (fun v => (fun a => vendor (account a)) <$> vehicles w !! v)
                vs).
Proof.
  induction vs as [|v rest IH]; intros acc; cbn [fold_left omap list_omap].
  - rewrite !app_nil_r. destruct acc; reflexivity.
  - rewrite IH. destruct (vehicles w !! v) as [a|]; cbn; [|reflexivity].
    rewrite <- !app_assoc. reflexivity.
Qed.

Lemma omap_lookup_ext {A B : Type} (f : A -> B) (l l' : list A)
  (R : A -> A -> Prop) (vs : list nat) :
  length l' = length l ->
  (forall v a, l !! v = Some a -> exists b, l' !! v = Some b /\ R a b) ->
  (forall a b, R a b -> f b = f a) ->
  omap (fun v => f <$> l' !! v) vs = omap (fun v => f <$> l !! v) vs.
Proof.
  intros Hlen Hrel Hf.
  induction vs as [|v rest IH]; [reflexivity|].
  cbn [omap list_omap]. rewrite IH.
  destruct (l !! v) as [a|] eqn:Ha.
  - destruct (Hrel v a Ha) as (b & -> & Hab). cbn. rewrite (Hf a b Hab).
    reflexivity.
  - apply lookup_ge_None_1 in Ha. rewrite <- Hlen in Ha.
    apply lookup_ge_None_2 in Ha. rewrite Ha. reflexivity.
Qed.

(** Three columns of the report do not depend on the run: the identifier,
    the vendor and the "total distance", which is the distance from the
    start to the end of the route whether or not the vehicle got there. *)
Theorem generate_report_run_independent (ext : Ambient) (w w' : World)
  (vs : list VehicleRef) :
  later ext w w' ->
  col_vehicle_id (generate_report ext w' vs)
  = col_vehicle_id (generate_report ext w vs)
  /\ col_total_distance (generate_report ext w' vs)
     = col_total_distance (generate_report ext w vs)
  /\ col_payment_vendor (generate_report ext w' vs)
     = col_payment_vendor (generate_report ext w vs).
Proof.
  intros Hl. unfold generate_report. rewrite !generate_report_from.
  cbn [col_vehicle_id col_total_distance col_payment_vendor app].
  pose proof (later_vehicles_length ext w w' Hl) as Hlen.
  assert (Hrel : forall v a, vehicles w !! v = Some a ->
                 exists b, vehicles w' !! v = Some b /\ same_identity a b).
  { intros v a Ha.
    destruct (later_run_relation ext w w' v a Hl Ha) as (b & Hb & Hi & _).
    exists b. auto. }
  repeat split; apply (omap_lookup_ext _ _ _ same_identity vs Hlen Hrel);
    intros a b (H1 & H2 & H3 & H4 & H5 & H6 & H7 & H8); congruence.
Qed.

Lemma generate_report_run_independent_witness :
  col_total_distance
    (generate_report Scenario.calm
       (steps Scenario.calm 4 Scenario.after_setup 0) [0%nat])
  = col_total_distance
      (generate_report Scenario.calm Scenario.after_setup [0%nat]).
Proof.
  apply (generate_report_run_independent Scenario.calm Scenario.after_setup
           (steps Scenario.calm 4 Scenario.after_setup 0) [0%nat]).
  apply steps_later.
Defined.



(** ** Termination of a run *)

Lemma list_sum_insert {A : Type} (f : A -> nat) (l : list A) (i : nat)
  (x y : A) :
  l !! i = Some x ->
  (list_sum (map f (<[i := y]> l)) + f x = list_sum (map f l) + f y)%nat.
Proof.
  revert i. induction l as [|a l IH]; intros [|i] H; try discriminate.
  - injection H as ->.
    change (<[0%nat := y]> (x :: l)) with (y :: l).
    cbn [map]. unfold list_sum. cbn [fold_right]. lia.
  - change ((a :: l) !! S i) with (l !! i) in H. specialize (IH i H).
    change (<[S i := y]> (a :: l)) with (a :: <[i := y]> l).
    cbn [map]. unfold list_sum in *. cbn [fold_right]. lia.
Qed.

Lemma list_sum_alter_le {A : Type} (f : A -> nat) (g : A -> A) (l : list A)
  (i : nat) :
  (forall x, f (g x) <= S (f x))%nat ->
  (list_sum (map f (alter g i l)) <= S (list_sum (map f l)))%nat.
Proof.
  intros Hg. revert i. induction l as [|a l IH]; intros [|i].
  - cbn. lia.
  - cbn. lia.
  - change (alter g 0%nat (a :: l)) with (g a :: l).
    cbn [map]. unfold list_sum. cbn [fold_right]. specialize (Hg a). lia.
  - change (alter g (S i) (a :: l)) with (a :: alter g i l).
    cbn [map]. unfold list_sum in *. cbn [fold_right]. specialize (IH i). lia.
Qed.

Lemma list_sum_map_ext {A : Type} (f g : A -> nat) (l : list A) :
  (forall x, f x = g x) -> list_sum (map f l) = list_sum (map g l).
Proof.
  intros H. induction l as [|a l IH]; [reflexivity|].
  cbn [map]. unfold list_sum in *. cbn [fold_right]. rewrite H, IH.
  reflexivity.
Qed.

Lemma heap_remove_length (q : list Event) (m : Event) :
  In m q -> S (length (heap_remove (ev_id m) q)) = length q.
Proof.
  induction q as [|x q IH]; intros Hin; [destruct Hin|].
  cbn [heap_remove]. destruct (Nat.eqb_spec (ev_id x) (ev_id m)) as [_|Hne].
  - reflexivity.
  - destruct Hin as [->|Hin]; [congruence|]. cbn [length]. rewrite IH; auto.
Qed.

Lemma heappop_length (q rest : list Event) (ev : Event) :
  heappop q = Some (ev, rest) -> S (length rest) = length q.
Proof.
  destruct q as [|x q']; [discriminate|].
  unfold heappop. intros H. injection H as Hev Hrest. subst ev rest.
  apply (heap_remove_length (x :: q') (heap_min x q')). apply heap_min_in.
Qed.

Lemma work_left_env_schedule (w : World) (e : EnvRef) (cb : Callback)
  (prio delay : Z) :
  (work_left (env_schedule w e cb prio delay) <= S (work_left w))%nat.
Proof.
  unfold work_left. cbn [env_schedule envs vehicles procs].
  pose proof (list_sum_alter_le (fun x => length (queue x))
                (fun x => schedule x cb prio delay) (envs w) e) as H.
  assert (Hs : forall x, (length (queue (schedule x cb prio delay))
                          <= S (length (queue x)))%nat).
  { intros x. cbn. rewrite length_app. cbn. lia. }
  specialize (H Hs). lia.
Qed.

(** Resuming a generator that has not returned leaves it strictly fewer
    resumes, and the route as it was. *)
Lemma resume_run_resumes_left (ext : Ambient) (self : Vehicle) (g : GenState)
  (clock rng : nat) :
  is_finished g = false ->
  let r := resume_run ext self g clock rng in
  (resumes_left (length (route self)) (r_gen r)
   < resumes_left (length (route self)) g)%nat.
Proof.
  intros Hg. cbv zeta.
  assert (Hhead : forall a i c n,
             route a = route self ->
             r_gen (loop_head ext a i c n) = AtYield1 i
             /\ (i < length (route self))%nat
             \/ exists how, r_gen (loop_head ext a i c n) = Finished how).
  { intros a i c n Hr. unfold loop_head.
    destruct (route a !! i) as [p|] eqn:Hp; [|right; eexists; reflexivity].
    destruct (5 <=? stationary_time a)%Z; [right; eexists; reflexivity|].
    destruct (check_toll_zone ext (set_position a p) c) as [[s2 c2] effs].
    left. split; [reflexivity|]. rewrite <- Hr. eapply lookup_lt_Some, Hp. }
  assert (Hsc : route (stationary_check self) = route self).
  { unfold stationary_check. destruct (coord_eqb _ _); reflexivity. }
  destruct g as [|i|i|how]; cbn [resume_run]; [| | |discriminate].
  - destruct (Hhead self 0%nat clock rng eq_refl) as [[-> Hi]|[how ->]];
      cbn [resumes_left]; lia.
  - destruct (Qltb _ _); [cbn [r_gen resumes_left]; lia|].
    cbn [and_before r_gen].
    destruct (Hhead (stationary_check self) (S i) clock (S rng) Hsc)
      as [[-> Hi]|[how ->]]; cbn [resumes_left]; lia.
  - cbn [and_before r_gen].
    destruct (Hhead (stationary_check self) (S i) clock rng Hsc)
      as [[-> Hi]|[how ->]]; cbn [resumes_left]; lia.
Qed.

Lemma resume_run_route (ext : Ambient) (self : Vehicle) (g : GenState)
  (clock rng : nat) :
  route (r_vehicle (resume_run ext self g clock rng)) = route self.
Proof.
  destruct (resume_run_related ext (run_relation ext) (run_relation_refl ext)
              (run_relation_trans ext) (run_relation_stationary ext)
              (run_relation_move ext) self g clock rng)
    as ((_ & _ & _ & _ & _ & Hr & _) & _).
  exact Hr.
Qed.

Lemma work_left_process_resume (ext : Ambient) (w : World) (e : EnvRef)
  (pid : ProcRef) :
  (work_left (process_resume ext w e pid) <= work_left w)%nat.
Proof.
  unfold process_resume.
  destruct (procs w !! pid) as [pr|] eqn:Hpr; [|lia].
  destruct (vehicles w !! p_vehicle pr) as [self|] eqn:Hself; [|lia].
  destruct (is_finished (p_gen pr)) eqn:Hfin; [lia|].
  pose proof (resume_run_resumes_left ext self (p_gen pr) (clock_reads w)
                (rng_draws w) Hfin) as Hlt.
  pose proof (resume_run_route ext self (p_gen pr) (clock_reads w)
                (rng_draws w)) as Hroute.
  cbv zeta in Hlt.
  set (r := resume_run ext self (p_gen pr) (clock_reads w) (rng_draws w)) in *.
  match goal with
  | |- (work_left (match _ with Some d => env_schedule ?w1 _ _ _ _
                               | None => _ end) <= _)%nat =>
      assert (H1 : (S (work_left w1) <= work_left w)%nat)
  end.
  { unfold work_left. cbn [envs vehicles procs].
    assert (Hlen : forall v,
               route_length (<[p_vehicle pr := r_vehicle r]> (vehicles w)) v
               = route_length (vehicles w) v).
    { intros v. unfold route_length.
      destruct (decide (p_vehicle pr = v)) as [<-|Hne].
      - rewrite list_lookup_insert_eq by (eapply lookup_lt_Some; eassumption).
        rewrite Hself, Hroute. reflexivity.
      - rewrite list_lookup_insert_ne by assumption. reflexivity. }
    rewrite (list_sum_map_ext
               (fun pr0 => resumes_left
                  (route_length (<[p_vehicle pr := r_vehicle r]> (vehicles w))
                     (p_vehicle pr0)) (p_gen pr0))
               (fun pr0 => resumes_left
                  (route_length (vehicles w) (p_vehicle pr0)) (p_gen pr0)))
      by (intros x; rewrite Hlen; reflexivity).
    pose proof (list_sum_insert
                  (fun pr0 => resumes_left
                     (route_length (vehicles w) (p_vehicle pr0)) (p_gen pr0))
                  (procs w) pid pr
                  (mkProcess (p_env pr) (p_vehicle pr) (r_gen r)) Hpr) as Hins.
    cbn [p_vehicle p_gen] in Hins.
    assert (Hrl : route_length (vehicles w) (p_vehicle pr)
                  = length (route self))
      by (unfold route_length; rewrite Hself; reflexivity).
    rewrite !Hrl in Hins. lia. }
  destruct (r_yield r);
    (eapply Nat.le_trans; [apply work_left_env_schedule | exact H1]).
Qed.

(** Every step of an environment uses up some of the work that is left. *)
Lemma work_left_step (ext : Ambient) (w w1 : World) (e : EnvRef) :
  step_to ext w e = Some w1 -> (work_left w1 < work_left w)%nat.
Proof.
  unfold step_to, step.
  destruct (envs w !! e) as [x|] eqn:Hx; [|discriminate].
  destruct (heappop (queue x)) as [[ev rest]|] eqn:Hpop; [|discriminate].
  apply heappop_length in Hpop.
  set (w0 := mkWorld _ _ _ _ _ _).
  assert (H0 : (S (work_left w0) = work_left w)%nat).
  { unfold work_left. cbn [w0 envs vehicles procs].
    pose proof (list_sum_insert (fun x => length (queue x)) (envs w) e x
                  (mkEnvironment (ev_time ev) (eid x) rest) Hx) as Hins.
    cbn [queue] in Hins. lia. }
  destruct (ev_callback ev); intros [= <-]; try lia.
  pose proof (work_left_process_resume ext w0 e p). lia.
Qed.

Lemma run_loop_terminates (ext : Ambient) (fuel : nat) :
  forall (w : World) (e : EnvRef),
    (work_left w < fuel)%nat -> exists w', run_loop ext fuel w e = Some w'.
Proof.
  induction fuel as [|fuel IH]; intros w e Hw; [lia|].
  cbn [run_loop]. destruct (step ext w e) as [w1|w1|] eqn:Hs.
  - apply IH.
    assert (H : step_to ext w e = Some w1) by (unfold step_to; rewrite Hs; reflexivity).
    apply work_left_step in H. lia.
  - eexists. reflexivity.
  - eexists. reflexivity.
Qed.

Lemma env_run_future (ext : Ambient) (w : World) (e : EnvRef) (until : Z)
  (fuel : nat) :
  (work_left w + 1 < fuel)%nat ->
  (now_of w e < until)%Z ->
  exists w',
    env_run ext fuel w e until = Some (Returns w')
    /\ later ext
         (env_schedule w e StopSimulation URGENT (until - now_of w e)) w'.
Proof.
  intros Hfuel Hu. unfold env_run.
  destruct (until <=? now_of w e)%Z eqn:E; [lia|].
  set (w0 := env_schedule w e StopSimulation URGENT (until - now_of w e)).
  destruct (run_loop_terminates ext fuel w0 e) as [w' Hw'].
  { pose proof (work_left_env_schedule w e StopSimulation URGENT
                  (until - now_of w e)) as H. fold w0 in H. lia. }
  exists w'. rewrite Hw'. split; [reflexivity|].
  apply (run_loop_later ext fuel w0 w' e Hw').
Qed.

(** [env.run(until=t)] always returns.  It raises [ValueError] when [t] is
    not in the future; otherwise the loop of steps ends, whatever the
    congestion draws: a route is finite and each waypoint costs a process at
    most two timeouts, so the steps use up a bounded amount of work. *)
Theorem env_run_returns (ext : Ambient) (w : World) (e : EnvRef) (until : Z)
  (fuel : nat) :
  (work_left w + 1 < fuel)%nat ->
  ((until <= now_of w e)%Z ->
   env_run ext fuel w e until = Some (Raises "ValueError"))
  /\ ((now_of w e < until)%Z ->
      exists w',
        env_run ext fuel w e until = Some (Returns w')
        /\ later ext
             (env_schedule w e StopSimulation URGENT (until - now_of w e)) w').
Proof.
  intros Hfuel. split; intros Hu.
  - unfold env_run.
    destruct (until <=? now_of w e)%Z eqn:E; [reflexivity | lia].
  - apply env_run_future; assumption.
Qed.

Lemma env_run_returns_witness :
  exists w',
    env_run Scenario.calm 20 Scenario.after_setup 0 100 = Some (Returns w')
    /\ later Scenario.calm
         (env_schedule Scenario.after_setup 0 StopSimulation URGENT
            (100 - now_of Scenario.after_setup 0)) w'.
Proof.
  apply (env_run_returns Scenario.calm Scenario.after_setup 0%nat 100%Z 20).
  - vm_compute. lia.
  - reflexivity.
Defined.

(** ** [main] as a whole *)

Lemma create_vehicles_returns (zones : list Polygon)
  (drawn : list (list Coord * string)) :
  forall (w : World) (e : EnvRef) (i : nat),
    Forall (fun d => d.1 <> []) drawn ->
    exists w' vs, create_vehicles w e zones i drawn = Returns (w', vs).
Proof.
  induction drawn as [|[route0 vendor0] rest IH]; intros w e i Hne;
    cbn [create_vehicles].
  - eexists _, _. reflexivity.
  - inversion Hne as [|d ds Hd Hrest]; subst.
    destruct route0 as [|first more]; [cbn in Hd; congruence|].
    unfold Vehicle_init.
    match goal with
    | |- context [create_vehicles ?a ?b ?c ?d ?f] =>
        destruct (IH a b d Hrest) as (w2 & vs2 & ->)
    end.
    eexists _, _. reflexivity.
Qed.

Lemma create_vehicles_raises (zones : list Polygon)
  (drawn : list (list Coord * string)) :
  forall (w : World) (e : EnvRef) (i : nat),
    Exists (fun d => d.1 = []) drawn ->
    create_vehicles w e zones i drawn = Raises "IndexError".
Proof.
  induction drawn as [|[route0 vendor0] rest IH]; intros w e i Hex;
    cbn [create_vehicles].
  - inversion Hex.
  - destruct route0 as [|first more]; [reflexivity|].
    inversion Hex as [d ds Hd|d ds Hrest]; subst; [cbn in Hd; discriminate|].
    unfold Vehicle_init.
    match goal with
    | |- context [create_vehicles ?a ?b ?c ?d ?f] =>
        rewrite (IH a b d Hrest)
    end.
    reflexivity.
Qed.

Lemma clock_not_ahead_same_environment (w : World) (e : EnvRef)
  (vs : list VehicleRef) :
  Forall (fun v => exists b, vehicles w !! v = Some b /\ env b = e) vs ->
  List.filter (clock_not_ahead w e) vs = vs.
Proof.
  induction 1 as [|v rest (b & Hb & He) _ IH]; [reflexivity|].
  cbn [List.filter]. unfold clock_not_ahead at 1.
  rewrite Hb, He, Z.leb_refl, IH. reflexivity.
Qed.

(** [main] always ends when every drawn route has a waypoint: with enough
    steps allowed it returns, and the count it prints as "vehicles on the
    toll road" is the number of vehicles created, whether or not they have
    finished or halted. *)
Theorem main_returns (ext : Ambient) (zones : list Polygon)
  (drawn : list (list Coord * string)) :
  Forall (fun d => d.1 <> []) drawn ->
  exists fuel0 : nat,
    forall fuel : nat,
      (fuel0 <= fuel)%nat ->
      exists w,
        main ext fuel zones drawn
        = Some (Returns (w, Z.of_nat (length drawn))).
Proof.
  intros Hne. unfold main.
  destruct (main_setup zones drawn) as [[[w e] vs]|exn] eqn:Hm.
  - destruct (main_setup_spec _ _ _ _ _ Hm) as (Hvs & _ & Hall & Hwf).
    exists (work_left w + 2)%nat. intros fuel Hfuel.
    assert (Hnow : now_of w e = 0%Z).
    { revert Hm. unfold main_setup.
      destruct (new_environment World_init) as [w0 e0] eqn:Hnew.
      injection Hnew as <- <-.
      match goal with
      | |- context [create_vehicles ?a ?b ?c ?d ?f] =>
          destruct (create_vehicles a b c d f) as [[w1 vs1]|exn] eqn:Hc;
            [|discriminate]
      end.
      intros [= <- <- <-].
      assert (Hkeep : forall (l : list VehicleRef) (w2 : World) (e2 : EnvRef),
                 now_of (setup_environment w2 e2 l) 0%nat = now_of w2 0%nat).
      { induction l as [|v l IHl]; intros w2 e2; [reflexivity|].
        unfold setup_environment in *. cbn [fold_left]. rewrite IHl.
        cbn [env_process fst]. rewrite now_of_env_schedule. reflexivity. }
      rewrite Hkeep. clear Hkeep Hvs Hall Hwf.
      assert (Hc0 : forall (d : list (list Coord * string)) (w2 w3 : World)
                      (i : nat) (l : list VehicleRef),
                 create_vehicles w2 0%nat zones i d = Returns (w3, l) ->
                 now_of w3 0%nat = now_of w2 0%nat).
      { induction d as [|[r0 v0] d IHd]; intros w2 w3 i l; cbn [create_vehicles].
        - intros [= <- <-]. reflexivity.
        - destruct r0 as [|first more]; [discriminate|]. unfold Vehicle_init.
          match goal with
          | |- context [create_vehicles ?a ?b ?c ?d ?f] =>
              destruct (create_vehicles a b c d f) as [[w4 l4]|exn] eqn:Hc4;
                [|discriminate]
          end.
          intros [= <- <-]. rewrite (IHd _ _ _ _ Hc4).
          cbn [env_process fst]. rewrite now_of_env_schedule. reflexivity. }
      rewrite (Hc0 _ _ _ _ _ Hc). reflexivity. }
    destruct (env_run_future ext w e 100%Z fuel) as (w' & -> & Hlater);
      [lia | lia |].
    exists w'. do 3 f_equal.
    rewrite query_vehicle_count_clocks.
    rewrite clock_not_ahead_same_environment; [subst vs; rewrite length_seq; reflexivity|].
    apply Forall_forall. intros v Hv. rewrite Forall_forall in Hall.
    destruct (Hall v Hv) as (a & Ha & He).
    assert (Ha0 : vehicles (env_schedule w e StopSimulation URGENT
                              (100 - now_of w e)) !! v = Some a) by exact Ha.
    destruct (later_run_relation ext _ w' v a Hlater Ha0)
      as (b & Hb & (He' & _) & _).
    exists b. split; [exact Hb | congruence].
  - exfalso. revert Hm. unfold main_setup.
    destruct (new_environment World_init) as [w0 e0].
    destruct (create_vehicles_returns zones drawn w0 e0 0 Hne) as (w1 & vs & ->).
    discriminate.
Qed.

Lemma main_returns_witness :
  exists fuel0 : nat,
    forall fuel : nat,
      (fuel0 <= fuel)%nat ->
      exists w,
        main Scenario.calm fuel [Scenario.zone] Scenario.fleet
        = Some (Returns (w, Z.of_nat (length Scenario.fleet))).
Proof.
  apply (main_returns Scenario.calm [Scenario.zone] Scenario.fleet).
  repeat constructor; discriminate.
Defined.

(** [main] indexes [route[0]] before it builds the vehicle: if a drawn route
    is empty it raises [IndexError], whatever else was drawn, and the
    simulation does not run. *)
Theorem main_empty_route_raises (ext : Ambient) (fuel : nat)
  (zones : list Polygon) (drawn : list (list Coord * string)) :
  Exists (fun d => d.1 = []) drawn ->
  main ext fuel zones drawn = Some (Raises "IndexError").
Proof.
  intros Hex. unfold main, main_setup.
  destruct (new_environment World_init) as [w0 e0].
  rewrite (create_vehicles_raises zones drawn w0 e0 0 Hex). reflexivity.
Qed.

Lemma main_empty_route_raises_witness :
  main Scenario.calm 5 [Scenario.zone]
    (Scenario.fleet ++ [([], "Vendor_C"%string)])
  = Some (Raises "IndexError").
Proof.
  apply (main_empty_route_raises Scenario.calm 5 [Scenario.zone]).
  right. left. reflexivity.
Defined.

(** ** The order of the moves *)






















(** ** Registration of processes *)

Lemma processes_of_app (w : World) (v : VehicleRef) (l1 l2 : list Process) :
  procs w = l1 ++ l2 ->
  processes_of w v
  = List.filter (fun pr => (p_vehicle pr =? v)%nat) l1
    ++ List.filter (fun pr => (p_vehicle pr =? v)%nat) l2.
Proof. intros H. unfold processes_of. rewrite H. apply List.filter_app. Qed.

(** [setup_environment] checks nothing: it leaves the vehicles as they are
    and registers a new process, with a generator not yet started, for
    every entry of the list, so a vehicle gains one process per occurrence
    on top of those it already has. *)
Theorem setup_environment_adds_processes (w : World) (e : EnvRef)
  (vs : list VehicleRef) :
  let w' := setup_environment w e vs in
  vehicles w' = vehicles w
  /\ procs w' = procs w ++ map (fun v => mkProcess e v Created) vs
  /\ forall v : VehicleRef,
       length (processes_of w' v)
       = (length (processes_of w v) + count_occ Nat.eq_dec vs v)%nat.
Proof.
  cbv zeta. destruct (setup_environment_spec vs w e) as [Hv Hp].
  split; [exact Hv|]. split; [exact Hp|].
  intros v. rewrite (processes_of_app _ v _ _ Hp), length_app.
  fold (processes_of w v). f_equal. clear.
  induction vs as [|x rest IH]; [reflexivity|].
  cbn [map List.filter p_vehicle count_occ].
  destruct (Nat.eqb_spec x v) as [->|Hne].
  - destruct (Nat.eq_dec v v) as [_|Hc]; [|congruence]. cbn [length].
    rewrite IH. reflexivity.
  - destruct (Nat.eq_dec x v) as [Hc|_]; [congruence|]. exact IH.
Qed.

Lemma main_setup_two_processes_witness :
  processes_of Scenario.after_setup 0
  = [mkProcess 0 0 Created; mkProcess 0 0 Created].
Proof.
  apply (main_setup_two_processes [Scenario.zone] Scenario.fleet
           Scenario.after_setup 0%nat [0%nat] 0%nat).
  - reflexivity.
  - left. reflexivity.
Defined.

(** ** The messages of the zone check *)

Lemma check_toll_zone_from_effects (ext : Ambient) (zones : list Polygon) :
  forall (self : Vehicle) (clock : nat),
    let amounts :=
      tolls_of_check ext clock
        (length (zones_containing zones (position self)))
        (calculate_distance ext (start self) (position self)) in
    (check_toll_zone_from ext zones self clock).2
    = toll_effects (vehicle_id self) amounts
        (running_balances (balance (account self)) amounts).
Proof.
  induction zones as [|z rest IH]; intros self clock; cbv zeta.
  - reflexivity.
  - cbn [check_toll_zone_from zones_containing List.filter].
    destruct (contains z (position self)) eqn:Hz; [|apply IH].
    set (d := calculate_distance ext (start self) (position self)).
    set (toll := calculate_toll (hour_of_read ext clock) d).
    set (self1 := set_account self (fst (deduct_toll (account self) toll))).
    specialize (IH self1 (S clock)). cbv zeta in IH.
    change (position self1) with (position self) in IH.
    change (start self1) with (start self) in IH.
    change (vehicle_id self1) with (vehicle_id self) in IH.
    change (balance (account self1)) with (balance (account self) - toll) in IH.
    fold (zones_containing rest (position self)). fold d in IH.
    destruct (check_toll_zone_from ext rest self1 (S clock))
      as [[self2 clock2] effs].
    cbn [snd length] in *. rewrite IH.
    unfold tolls_of_check. cbn [seq map running_balances]. fold toll.
    reflexivity.
Qed.

(** The zone check prints one message after each debit, with that toll and
    the balance just after it: with several zones the messages show the
    balance going down step by step, not the balance at the end. *)
Theorem check_toll_zone_messages (ext : Ambient) (self : Vehicle)
  (clock : nat) :
  let amounts :=
    tolls_of_check ext clock
      (length (zones_containing (toll_zones self) (position self)))
      (calculate_distance ext (start self) (position self)) in
  let balances := running_balances (balance (account self)) amounts in
  (check_toll_zone ext self clock).2
  = toll_effects (vehicle_id self) amounts balances
  /\ length balances = length amounts
  /\ (amounts <> [] ->
      List.last balances 0
      = balance (account (check_toll_zone ext self clock).1.1)).
Proof.
  cbv zeta. unfold check_toll_zone.
  set (k := length (zones_containing (toll_zones self) (position self))).
  set (d := calculate_distance ext (start self) (position self)).
  split; [apply check_toll_zone_from_effects|].
  destruct (check_toll_zone_from_spec ext (toll_zones self) self clock)
    as (Hv & _ & _). cbv zeta in Hv. fold k d in Hv. rewrite Hv.
  cbn [account set_account]. generalize (tolls_of_check ext clock k d).
  intros amounts. generalize (account self). clear.
  induction amounts as [|a rest IH]; intros acct.
  - split; [reflexivity|]. intros H. congruence.
  - rewrite deduct_tolls_cons. cbn [fst running_balances length].
    destruct (IH (fst (deduct_toll acct a))) as [Hlen Hlast].
    cbn [deduct_toll fst balance] in *.
    split; [rewrite Hlen; reflexivity|]. intros _.
    destruct rest as [|b rest']; [reflexivity|].
    rewrite <- Hlast by discriminate. reflexivity.
Qed.

(** ** Bounds of the query *)

(** The count is never negative and never more than the number of vehicles
    passed in; on an empty list it is 0. *)
Theorem query_vehicle_count_bounds (w : World) (e : EnvRef)
  (vs : list VehicleRef) :
  (0 <= query_vehicle_count w e vs <= Z.of_nat (length vs))%Z
  /\ query_vehicle_count w e [] = 0%Z.
Proof.
  rewrite query_vehicle_count_clocks. split; [|reflexivity].
  pose proof (List.filter_length_le (clock_not_ahead w e) vs). lia.
Qed.

Lemma check_toll_zone_messages_witness :
  let self := Scenario.parked 0 [Scenario.zone; Scenario.zone] in
  let amounts := tolls_of_check Scenario.calm 0 2 0 in
  (check_toll_zone Scenario.calm self 0).2
  = toll_effects "Vehicle_0" amounts (running_balances 100 amounts).
Proof.
  apply (check_toll_zone_messages Scenario.calm
           (Scenario.parked 0 [Scenario.zone; Scenario.zone]) 0).
Defined.

(** ** Simulated time *)

Lemma now_of_process_resume (ext : Ambient) (w : World) (e e' : EnvRef)
  (pid : ProcRef) :
  now_of (process_resume ext w e pid) e' = now_of w e'.
Proof.
  unfold process_resume.
  destruct (procs w !! pid) as [pr|]; [|reflexivity].
  destruct (vehicles w !! p_vehicle pr) as [self|]; [|reflexivity].
  destruct (is_finished (p_gen pr)); [reflexivity|].
  destruct (r_yield _); rewrite now_of_env_schedule; reflexivity.
Qed.

Lemma step_now_monotone (ext : Ambient) (w w1 : World) (e e' : EnvRef) :
  well_formed w -> step_to ext w e = Some w1 ->
  (now_of w e' <= now_of w1 e')%Z.
Proof.
  intros [Hq _]. unfold step_to, step.
  destruct (envs w !! e) as [x|] eqn:Hx; [|discriminate].
  destruct (heappop (queue x)) as [[ev rest]|] eqn:Hpop; [|discriminate].
  destruct (heappop_spec _ _ _ Hpop) as (Hin & _ & _).
  assert (Hnow : (now x <= ev_time ev)%Z).
  { pose proof (Hq e x Hx) as Hall. rewrite Forall_forall in Hall.
    apply Hall. apply list_elem_of_In. assumption. }
  set (w0 := mkWorld _ _ _ _ _ _).
  assert (Hmono : (now_of w e' <= now_of w0 e')%Z).
  { unfold now_of. cbn [w0 envs].
    destruct (decide (e = e')) as [<-|Hne].
    - rewrite list_lookup_insert_eq by (eapply lookup_lt_Some; eassumption).
      rewrite Hx. cbn. assumption.
    - rewrite list_lookup_insert_ne by assumption. lia. }
  destruct (ev_callback ev); intros [= <-]; try assumption.
  rewrite now_of_process_resume. assumption.
Qed.

(** Simulated time never goes back: through any steps of a well-formed
    world the clock of each environment only moves forward, and no event is
    ever waiting in the past of its environment. *)
Theorem run_time_monotone (ext : Ambient) (w w' : World) (e : EnvRef) :
  well_formed w -> later ext w w' ->
  (now_of w e <= now_of w' e)%Z
  /\ forall x, envs w' !! e = Some x ->
               Forall (fun ev => (now x <= ev_time ev)%Z) (queue x).
Proof.
  intros Hw Hl. split.
  - induction Hl as [w | w w1 w2 e1 Hstep Hlater IH]; [lia|].
    pose proof (step_now_monotone ext w w1 e1 e Hw Hstep).
    pose proof (IH (well_formed_step ext w w1 e1 Hw Hstep)). lia.
  - destruct (well_formed_later ext w w' Hl Hw) as [Hq _]. apply Hq.
Qed.

Lemma run_time_monotone_witness :
  (now_of Scenario.after_setup 0
   <= now_of (steps Scenario.calm 4 Scenario.after_setup 0) 0)%Z.
Proof.
  apply (run_time_monotone Scenario.calm Scenario.after_setup
           (steps Scenario.calm 4 Scenario.after_setup 0) 0%nat).
  - destruct (main_setup_spec [Scenario.zone] Scenario.fleet
                Scenario.after_setup 0%nat [0%nat] eq_refl) as (_ & _ & _ & H).
    exact H.
  - apply steps_later.
Defined.

(** ** One zone check *)

(** One call of [check_toll_zone] debits the account once for each zone of
    [toll_zones] that contains the position, in the order of the list and
    with no deduplication, and not at all for the other zones; each amount
    is [calculate_toll] of the distance from [start] to the position; the
    payments are appended and the balance goes down by successive
    subtraction; nothing else of the vehicle changes. *)
Theorem check_toll_zone_debits (ext : Ambient) (self : Vehicle)
  (clock : nat) :
  let r := check_toll_zone ext self clock in
  let k := length (zones_containing (toll_zones self) (position self)) in
  let amounts :=
    tolls_of_check ext clock k
      (calculate_distance ext (start self) (position self)) in
  length amounts = k
  /\ List.filter is_debit r.2 = map Debit amounts
  /\ payments (account r.1.1) = payments (account self) ++ amounts
  /\ balance (account r.1.1) = balance_after (balance (account self)) amounts
  /\ r.1.1 = set_account self (account r.1.1)
  /\ r.1.2 = (clock + k)%nat.
Proof.
  cbv zeta. unfold check_toll_zone.
  destruct (check_toll_zone_from_spec ext (toll_zones self) self clock)
    as (Hv & Hc & He).
  cbv zeta in Hv, Hc, He. rewrite Hv, Hc, He.
  set (amounts := tolls_of_check ext clock _ _).
  destruct (deduct_tolls_from amounts (account self)) as (_ & Hpay & _ & _).
  cbn [account set_account]. split.
  { unfold amounts, tolls_of_check. rewrite length_map, length_seq.
    reflexivity. }
  split; [reflexivity|]. split; [exact Hpay|].
  split; [apply deduct_tolls_balance_after|]. split; reflexivity.
Qed.

(** ** The query, in the environment of [main] *)



